(** * Textbook-assistant backend: chunking, indexing, retrieval, translation cache

    A shallow embedding of the service layer of the backend
    ([services/embedding_service.py], [services/rag_service.py],
    [services/translation_service.py], [services/personalization_service.py])
    and of the batch script [embed_content.py], followed by the properties of
    the specification that concern them.

    External collaborators (the embedding/generation provider, the vector
    store, the relational store) are oracles: their reply to a call is a
    function of the history of calls issued so far and of the call's
    arguments.  The services thread a state that holds what the stores
    contain, that history, and the error records written to the log.

    Of the logging calls only [logger.error] is recorded.  [logger.info] and
    [logger.debug] have no effect on what a service returns or stores and are
    left out, except that an expression evaluated inside such a message is
    kept where it can raise ([len(exercises)] in [suggest_exercises]).
    Reading the cache table never fails in this model; a write is subject
    to the table's constraints and to the store's verdict. *)

From Stdlib Require Import ZArith List Lia Ascii String DecimalString.
From stdpp Require Import gmap list.

Local Open Scope Z_scope.

(* ===================================================================== *)
(** ** Python values used by the services *)
(* ===================================================================== *)

Module Py.

(** A [str] is a sequence of Unicode code points. *)
Definition char := N.
Definition str := list N.

(** String literals of the source, written as Rocq strings. *)
Definition lit (s : String.string) : str :=
  N_of_ascii <$> list_ascii_of_string s.

Definition len {A} (s : list A) : Z := Z.of_nat (length s).

(** Exceptions: the class and the message ([str(e)]). *)
Inductive exn_class :=
| ProviderError        (* any failure of the OpenAI client *)
| StoreError           (* any failure of the Qdrant client *)
| KeyError
| TypeError
| AttributeError
| UnicodeEncodeError
| JSONDecodeError
| IntegrityError.

Record exn := Exn { exn_class_of : exn_class; exn_msg : str }.

Inductive result (A : Type) :=
| Return (a : A)
| Raise (e : exn).
Arguments Return {A} a.
Arguments Raise {A} e.

(** Slice bounds of [s[a:b]] for a sequence of length [n]: a negative
    index counts from the end, and both ends are clamped to [0, n]. *)
Definition adjust (n i : Z) : Z :=
  if i <? 0 then Z.max 0 (i + n) else Z.min i n.

Definition slice {A} (s : list A) (a b : Z) : list A :=
  let lo := adjust (len s) a in
  let hi := adjust (len s) b in
  take (Z.to_nat (hi - lo)) (drop (Z.to_nat lo) s).

Fixpoint startswith (s sub : str) : bool :=
  match sub, s with
  | [], _ => true
  | _ :: _, [] => false
  | c :: sub', d :: s' => N.eqb c d && startswith s' sub'
  end.

(** [rfind_from s sub i best]: [s] is the suffix of the subject that
    starts at index [i]; [best] is the highest match seen before it. *)
Fixpoint rfind_from (s sub : str) (i best : Z) : Z :=
  let best' := if startswith s sub then i else best in
  match s with
  | [] => best'
  | _ :: s' => rfind_from s' sub (i + 1) best'
  end.

(** [s.rfind(sub)]: the highest index where [sub] occurs, or -1. *)
Definition rfind (s sub : str) : Z := rfind_from s sub 0 (-1).

(** [str.isspace] on one code point (the characters [strip()] removes). *)
Definition isspace (c : char) : bool :=
  ((9 <=? c) && (c <=? 13))%N || ((28 <=? c) && (c <=? 32))%N
  || (c =? 133)%N || (c =? 160)%N || (c =? 5760)%N
  || ((8192 <=? c) && (c <=? 8202))%N
  || (c =? 8232)%N || (c =? 8233)%N || (c =? 8239)%N
  || (c =? 8287)%N || (c =? 12288)%N.

Fixpoint lstrip (s : str) : str :=
  match s with
  | c :: s' => if isspace c then lstrip s' else s
  | [] => []
  end.

Definition strip (s : str) : str := rev (lstrip (rev (lstrip s))).

(** [str(n)] for an index, as the f-strings format it. *)
Definition str_of_nat (n : nat) : str :=
  lit (NilZero.string_of_uint (Nat.to_uint n)).

(** [s.encode()]: UTF-8.  Surrogates cannot be encoded. *)
Definition encode_char (c : char) : option (list Z) :=
  let z := Z.of_N c in
  if z <? 128 then Some [z]
  else if z <? 2048 then Some [192 + z / 64; 128 + z mod 64]
  else if (55296 <=? z) && (z <=? 57343) then None
  else if z <? 65536 then
    Some [224 + z / 4096; 128 + (z / 64) mod 64; 128 + z mod 64]
  else if z <? 1114112 then
    Some [240 + z / 262144; 128 + (z / 4096) mod 64;
          128 + (z / 64) mod 64; 128 + z mod 64]
  else None.

Fixpoint encode_opt (s : str) : option (list Z) :=
  match s with
  | [] => Some []
  | c :: s' =>
      match encode_char c, encode_opt s' with
      | Some bs, Some rest => Some (bs ++ rest)
      | _, _ => None
      end
  end.

Definition encode (s : str) : result (list Z) :=
  match encode_opt s with
  | Some bs => Return bs
  | None => Raise (Exn UnicodeEncodeError (lit "surrogates not allowed"))
  end.

End Py.
Import Py.

(* ===================================================================== *)
(** ** hashlib.md5 *)
(* ===================================================================== *)

Module MD5.

Definition w32 (x : Z) : Z := x mod 4294967296.

Definition rotl (x c : Z) : Z :=
  w32 (Z.lor (Z.shiftl x c) (Z.shiftr x (32 - c))).

Definition lnot32 (x : Z) : Z := Z.lxor x 4294967295.

Definition shifts : list Z :=
  [7; 12; 17; 22; 7; 12; 17; 22; 7; 12; 17; 22; 7; 12; 17; 22;
   5; 9; 14; 20; 5; 9; 14; 20; 5; 9; 14; 20; 5; 9; 14; 20;
   4; 11; 16; 23; 4; 11; 16; 23; 4; 11; 16; 23; 4; 11; 16; 23;
   6; 10; 15; 21; 6; 10; 15; 21; 6; 10; 15; 21; 6; 10; 15; 21].

Definition sines : list Z :=
  [3614090360; 3905402710; 606105819; 3250441966; 4118548399; 1200080426; 2821735955; 4249261313;
   1770035416; 2336552879; 4294925233; 2304563134; 1804603682; 4254626195; 2792965006; 1236535329;
   4129170786; 3225465664; 643717713; 3921069994; 3593408605; 38016083; 3634488961; 3889429448;
   568446438; 3275163606; 4107603335; 1163531501; 2850285829; 4243563512; 1735328473; 2368359562;
   4294588738; 2272392833; 1839030562; 4259657740; 2763975236; 1272893353; 4139469664; 3200236656;
   681279174; 3936430074; 3572445317; 76029189; 3654602809; 3873151461; 530742520; 3299628645;
   4096336452; 1126891415; 2878612391; 4237533241; 1700485571; 2399980690; 4293915773; 2240044497;
   1873313359; 4264355552; 2734768916; 1309151649; 4149444226; 3174756917; 718787259; 3951481745].

(** Little-endian bytes of a word, and back. *)
Fixpoint le_bytes (n : nat) (x : Z) : list Z :=
  match n with
  | O => []
  | S n' => x mod 256 :: le_bytes n' (x / 256)
  end.

Fixpoint le_word (bs : list Z) : Z :=
  match bs with
  | [] => 0
  | b :: bs' => b + 256 * le_word bs'
  end.

(** Message padding: a 1 bit, zeros up to 56 mod 64, the bit length. *)
Definition pad (msg : list Z) : list Z :=
  let n := len msg in
  let zeros := Z.to_nat ((55 - n) mod 64) in
  msg ++ [128] ++ repeat 0 zeros ++ le_bytes 8 ((8 * n) mod 2 ^ 64).

Fixpoint words (n : nat) (bs : list Z) : list Z :=
  match n with
  | O => []
  | S n' => le_word (take 4 bs) :: words n' (drop 4 bs)
  end.

Fixpoint blocks (n : nat) (bs : list Z) : list (list Z) :=
  match n with
  | O => []
  | S n' => words 16 (take 64 bs) :: blocks n' (drop 64 bs)
  end.

Definition quad := (Z * Z * Z * Z)%type.

Definition step (m : list Z) (st : quad) (i : nat) : quad :=
  let '(a, b, c, d) := st in
  let iz := Z.of_nat i in
  let '(f, g) :=
    match (i / 16)%nat with
    | 0%nat => (Z.lor (Z.land b c) (Z.land (lnot32 b) d), iz)
    | 1%nat => (Z.lor (Z.land d b) (Z.land (lnot32 d) c), (5 * iz + 1) mod 16)
    | 2%nat => (Z.lxor (Z.lxor b c) d, (3 * iz + 5) mod 16)
    | _ => (Z.lxor c (Z.lor b (lnot32 d)), (7 * iz) mod 16)
    end in
  let f' := w32 (f + a + nth i sines 0 + nth (Z.to_nat g) m 0) in
  (d, w32 (b + rotl f' (nth i shifts 0)), b, c).

Definition compress (st : quad) (m : list Z) : quad :=
  let '(a0, b0, c0, d0) := st in
  let '(a, b, c, d) := fold_left (step m) (seq 0 64) st in
  (w32 (a0 + a), w32 (b0 + b), w32 (c0 + c), w32 (d0 + d)).

Definition init : quad := (1732584193, 4023233417, 2562383102, 271733878).

Definition digest (msg : list Z) : list Z :=
  let p := pad msg in
  let '(a, b, c, d) :=
    fold_left compress (blocks (length p / 64) p) init in
  le_bytes 4 a ++ le_bytes 4 b ++ le_bytes 4 c ++ le_bytes 4 d.

Definition hex_digit (x : Z) : char :=
  Z.to_N (if x <? 10 then 48 + x else 87 + x).

Definition hexdigest (msg : list Z) : str :=
  flat_map (fun b => [hex_digit (b / 16); hex_digit (b mod 16)]) (digest msg).

End MD5.

(** [hashlib.md5(s.encode()).hexdigest()] *)
Definition md5_hex (s : str) : result str :=
  match encode s with
  | Return bs => Return (MD5.hexdigest bs)
  | Raise e => Raise e
  end.


(* ===================================================================== *)
(** ** The world the services run in *)
(* ===================================================================== *)

Module World.

(** An embedding vector.  Its components are floats in the source; no
    service inspects them, so they are kept as integers here. *)
Definition Vector := list Z.

(** Payload of a point of the collection, as [embed_content] writes it. *)
Record Payload := {
  payload_text : str;
  payload_chapter_id : str;
  payload_chapter_title : str;
  payload_chunk_index : nat;
  payload_total_chunks : nat }.

Record PointStruct := {
  point_id : str;
  point_vector : Vector;
  point_payload : Payload }.

(** A search hit.  The payload is a dict: a key may be absent. *)
Record ScoredPoint := {
  hit_text : option str;
  hit_chapter_id : option str;
  hit_chapter_title : option str;
  hit_chunk_index : option Z;
  hit_score : Z }.

(** One message of a chat completion request: role and content. *)
Definition Message := (str * str)%type.

(** [temperature] in tenths; [json_object] is
    [response_format={"type": "json_object"}]. *)
Record ChatRequest := {
  chat_model : str;
  chat_messages : list Message;
  chat_temperature : Z;
  chat_max_tokens : option Z;
  chat_json_object : bool }.

(** A row of table [translation_cache] (models/database.py). *)
Record TranslationCache := {
  content_hash : str;
  source_lang : str;
  target_lang : str;
  translated_content : str }.

(** Values that [json.loads] produces. *)
#[local] Set Warnings "-register-all".
Inductive pyval :=
| PNone
| PBool (b : bool)
| PInt (n : Z)
| PFloat (repr : str)
| PStr (s : str)
| PList (l : list pyval)
| PDict (items : list (str * pyval)).

(** Calls issued to the external collaborators. *)
Inductive Call :=
| EmbeddingsCreate (model input : str)
| QdrantUpsert (collection : str) (points : list PointStruct)
| QdrantSearch (collection : str) (query_vector : Vector) (limit : Z)
               (chapter_filter : option str)
| QdrantDelete (collection : str) (chapter_filter : str)
| ChatCreate (request : ChatRequest)
| DbQuery (hash : str)
| DbCommit (row : TranslationCache).

(** The collaborators.  Each reply depends on the calls issued before
    (the history) and on the arguments.  A store call either fails with an
    exception or takes effect. *)
Record Env := {
  embeddings_create : list Call -> str -> result Vector;
  qdrant_upsert : list Call -> list PointStruct -> option exn;
  qdrant_search : list Call -> Vector -> Z -> option str -> result (list ScoredPoint);
  qdrant_delete : list Call -> str -> option exn;
  chat_create : list Call -> ChatRequest -> result (option str);
  db_commit : list Call -> TranslationCache -> option exn;
  json_loads : str -> option pyval }.

Record State := {
  points : gmap str PointStruct;      (* the Qdrant collection, by point id *)
  cache : list TranslationCache;      (* table translation_cache, oldest first *)
  calls : list Call;                  (* history, oldest first *)
  errors : list str }.                (* logger.error records, oldest first *)

Definition set_points (f : gmap str PointStruct -> gmap str PointStruct) (st : State) : State :=
  {| points := f (points st); cache := cache st; calls := calls st; errors := errors st |}.
Definition set_cache (f : list TranslationCache -> list TranslationCache) (st : State) : State :=
  {| points := points st; cache := f (cache st); calls := calls st; errors := errors st |}.
Definition record_call (c : Call) (st : State) : State :=
  {| points := points st; cache := cache st; calls := calls st ++ [c]; errors := errors st |}.
Definition record_error (msg : str) (st : State) : State :=
  {| points := points st; cache := cache st; calls := calls st; errors := errors st ++ [msg] |}.

(** Computations: state passing with exceptions.  A raised exception keeps
    the state reached when it was raised. *)
Definition M (A : Type) : Type := State -> result A * State.

Definition ret {A} (a : A) : M A := fun st => (Return a, st).
Definition raise {A} (e : exn) : M A := fun st => (Raise e, st).
Definition lift {A} (r : result A) : M A := fun st => (r, st).

Definition bind {A B} (m : M A) (k : A -> M B) : M B :=
  fun st =>
    match m st with
    | (Return a, st') => k a st'
    | (Raise e, st') => (Raise e, st')
    end.

(** [try: m  except Exception as e: h e] *)
Definition try_except {A} (m : M A) (h : exn -> M A) : M A :=
  fun st =>
    match m st with
    | (Return a, st') => (Return a, st')
    | (Raise e, st') => h e st'
    end.

Definition logger_error (msg : str) : M unit :=
  fun st => (Return tt, record_error msg st).

(** [d[k]] on an optional field of a dict. *)
Definition getitem {A} (field : option A) (key : String.string) : M A :=
  match field with
  | Some v => ret v
  | None => raise (Exn KeyError (lit "'" ++ lit key ++ lit "'"))
  end.

(** Observations on a history. *)
Definition chat_calls (cs : list Call) : list ChatRequest :=
  flat_map (fun c => match c with ChatCreate r => [r] | _ => [] end) cs.

Definition embedding_inputs (cs : list Call) : list str :=
  flat_map (fun c => match c with EmbeddingsCreate _ s => [s] | _ => [] end) cs.

Definition upserted (cs : list Call) : list PointStruct :=
  flat_map (fun c => match c with QdrantUpsert _ ps => ps | _ => [] end) cs.

(** Number of points of a chapter in the collection. *)
Definition chapter_points (chapter_id : str) (pts : gmap str PointStruct)
  : gmap str PointStruct :=
  filter (fun kv => payload_chapter_id (point_payload kv.2) = chapter_id) pts.

Definition chapter_count (chapter_id : str) (pts : gmap str PointStruct) : nat :=
  size (chapter_points chapter_id pts).

(** Point [id] exists and belongs to the chapter. *)
Definition owned (chapter_id : str) (pts : gmap str PointStruct) (id : str) : Prop :=
  exists p, pts !! id = Some p /\ payload_chapter_id (point_payload p) = chapter_id.

End World.
Import World.

Declare Scope py_scope.
Delimit Scope py_scope with py.
Notation "'let*' x ':=' m 'in' k" := (bind m (fun x => k))
  (at level 10, x name, m at level 100, k at level 200) : py_scope.
Notation "m ';;' k" := (bind m (fun _ => k))
  (at level 100, k at level 200, right associativity) : py_scope.
Local Open Scope py_scope.

(* ===================================================================== *)
(** ** services/embedding_service.py *)
(* ===================================================================== *)

Module EmbeddingService.

Definition collection_name : str := lit "book_content".
Definition embedding_model : str := lit "text-embedding-3-small".

(** The [while] loop of [chunk_text].  [fuel] bounds the number of times
    the loop condition is evaluated; [None] means the bound was reached
    with the loop still running. *)
Fixpoint chunk_loop (fuel : nat) (text : str) (chunk_size overlap : Z)
         (start : Z) (chunks : list str) : option (list str) :=
  match fuel with
  | O => None
  | S fuel' =>
      let text_length := len text in
      if start <? text_length then
        let end_ := start + chunk_size in
        let chunk := slice text start end_ in
        (* Try to break at sentence boundary *)
        let '(chunk, end_) :=
          if end_ <? text_length then
            let last_period := rfind chunk (lit ". ") in
            if last_period >? chunk_size / 2
            then (slice chunk 0 (last_period + 1), start + last_period + 1)
            else (chunk, end_)
          else (chunk, end_) in
        let chunks := chunks ++ [strip chunk] in
        let start := if end_ <? text_length then end_ - overlap else text_length in
        chunk_loop fuel' text chunk_size overlap start chunks
      else Some chunks
  end.

Definition chunk_text (fuel : nat) (text : str) (chunk_size overlap : Z)
  : option (list str) :=
  chunk_loop fuel text chunk_size overlap 0 [].

(** One pass through the loop body at [start]: the chunk appended and the
    next value of [start] (lemma [chunk_loop_unfold] relates it to
    [chunk_loop]). *)
Definition chunk_step (text : str) (chunk_size overlap start : Z) : str * Z :=
  let text_length := len text in
  let end_ := start + chunk_size in
  let chunk := slice text start end_ in
  let '(chunk, end_) :=
    if end_ <? text_length then
      let last_period := rfind chunk (lit ". ") in
      if last_period >? chunk_size / 2
      then (slice chunk 0 (last_period + 1), start + last_period + 1)
      else (chunk, end_)
    else (chunk, end_) in
  (strip chunk, if end_ <? text_length then end_ - overlap else text_length).

(** [self.chunk_text(content)]: the call with the default
    [chunk_size=1000], [overlap=200], for which [len(content) + 1]
    evaluations of the loop condition are enough
    (lemma [chunk_text_default_returns] below). *)
Definition chunk_text_default (content : str) : list str :=
  default [] (chunk_text (S (length content)) content 1000 200).

(** [hashlib.md5(f"{metadata['chapter_id']}_{idx}".encode()).hexdigest()] *)
Definition content_id (chapter_id : str) (idx : nat) : result str :=
  md5_hex (chapter_id ++ lit "_" ++ str_of_nat idx).

Definition embed_error_message (idx : nat) (e : exn) : str :=
  lit "Error embedding chunk " ++ str_of_nat idx ++ lit ": " ++ exn_msg e.

(** The body of the [try] for one chunk. *)
Definition embed_chunk (env : Env) (metadata : gmap str str) (total : nat)
           (idx : nat) (chunk : str) : M unit :=
  (* Generate embedding using OpenAI *)
  let* embedding :=
    (fun st => (embeddings_create env (calls st) chunk,
                record_call (EmbeddingsCreate embedding_model chunk) st)) in
  (* Create unique ID for the chunk *)
  let* chapter_id := getitem (metadata !! lit "chapter_id") "chapter_id" in
  let* content_id := lift (content_id chapter_id idx) in
  let* chapter_title := getitem (metadata !! lit "chapter_title") "chapter_title" in
  let point :=
    {| point_id := content_id;
       point_vector := embedding;
       point_payload :=
         {| payload_text := chunk;
            payload_chapter_id := chapter_id;
            payload_chapter_title := chapter_title;
            payload_chunk_index := idx;
            payload_total_chunks := total |} |} in
  (* Store in Qdrant *)
  fun st =>
    let st' := record_call (QdrantUpsert collection_name [point]) st in
    match qdrant_upsert env (calls st) [point] with
    | Some e => (Raise e, st')
    | None => (Return tt, set_points (insert content_id point) st')
    end.

(** [for idx, chunk in enumerate(chunks)], from index [idx] on. *)
Fixpoint embed_chunks (env : Env) (metadata : gmap str str) (total : nat)
         (idx : nat) (chunks : list str) : M unit :=
  match chunks with
  | [] => ret tt
  | chunk :: rest =>
      try_except (embed_chunk env metadata total idx chunk)
                 (fun e => logger_error (embed_error_message idx e) ;; raise e) ;;
      embed_chunks env metadata total (S idx) rest
  end.

Definition embed_content (env : Env) (content : str) (metadata : gmap str str)
  : M Z :=
  let chunks := chunk_text_default content in
  embed_chunks env metadata (length chunks) 0 chunks ;;
  ret (len chunks).

(** The dict that [search_similar] builds for a hit. *)
Record Doc := {
  doc_text : str;
  doc_chapter_id : str;
  doc_chapter_title : str;
  doc_chunk_index : Z;
  doc_score : Z }.

Fixpoint build_results (hits : list ScoredPoint) : M (list Doc) :=
  match hits with
  | [] => ret []
  | hit :: rest =>
      let* text := getitem (hit_text hit) "text" in
      let* chapter_id := getitem (hit_chapter_id hit) "chapter_id" in
      let* chapter_title := getitem (hit_chapter_title hit) "chapter_title" in
      let doc :=
        {| doc_text := text;
           doc_chapter_id := chapter_id;
           doc_chapter_title := chapter_title;
           doc_chunk_index := default 0 (hit_chunk_index hit);
           doc_score := hit_score hit |} in
      let* results := build_results rest in
      ret (doc :: results)
  end.

(** [if chapter_id:] holds for a non-empty string only. *)
Definition search_filter (chapter_id : option str) : option str :=
  match chapter_id with
  | Some (c :: s) => Some (c :: s)
  | _ => None
  end.

Definition search_similar (env : Env) (query : str) (limit : Z)
           (chapter_id : option str) : M (list Doc) :=
  try_except
    ((* Embed the query *)
     let* query_embedding :=
       (fun st => (embeddings_create env (calls st) query,
                   record_call (EmbeddingsCreate embedding_model query) st)) in
     (* Search in Qdrant *)
     let* search_results :=
       (fun st =>
          (qdrant_search env (calls st) query_embedding limit (search_filter chapter_id),
           record_call (QdrantSearch collection_name query_embedding limit
                                     (search_filter chapter_id)) st)) in
     build_results search_results)
    (fun e =>
       logger_error (lit "Error searching similar content: " ++ exn_msg e) ;;
       raise e).

Definition delete_matching (chapter_id : str) (pts : gmap str PointStruct)
  : gmap str PointStruct :=
  filter (fun kv => payload_chapter_id (point_payload kv.2) <> chapter_id) pts.

Definition delete_error_message (e : exn) : str :=
  lit "Error deleting chapter embeddings: " ++ exn_msg e.

Definition delete_chapter_embeddings (env : Env) (chapter_id : str) : M bool :=
  try_except
    ((fun st =>
        let st' := record_call (QdrantDelete collection_name chapter_id) st in
        match qdrant_delete env (calls st) chapter_id with
        | Some e => (Raise e, st')
        | None => (Return tt, set_points (delete_matching chapter_id) st')
        end) ;;
     ret true)
    (fun e =>
       logger_error (delete_error_message e) ;;
       ret false).

(** What the payload of a point says about the document it was cut from:
    its text is the chunk at its index, its count is the number of chunks,
    and its chapter fields and its id come from the metadata. *)
Definition describes (metadata : gmap str str) (chunks : list str)
           (p : PointStruct) : Prop :=
  let payload := point_payload p in
  chunks !! payload_chunk_index payload = Some (payload_text payload)
  /\ payload_total_chunks payload = length chunks
  /\ metadata !! lit "chapter_id" = Some (payload_chapter_id payload)
  /\ metadata !! lit "chapter_title" = Some (payload_chapter_title payload)
  /\ content_id (payload_chapter_id payload) (payload_chunk_index payload)
     = Return (point_id p).

(** The dict of a result mirrors the hit it was built from. *)
Definition doc_of_hit (hit : ScoredPoint) (doc : Doc) : Prop :=
  hit_text hit = Some (doc_text doc)
  /\ hit_chapter_id hit = Some (doc_chapter_id doc)
  /\ hit_chapter_title hit = Some (doc_chapter_title doc)
  /\ doc_chunk_index doc = default 0 (hit_chunk_index hit)
  /\ doc_score doc = hit_score hit.

Definition search_error_message (e : exn) : str :=
  lit "Error searching similar content: " ++ exn_msg e.

(** The point that [embed_content] builds for chunk [idx]. *)
Definition chunk_point (id : str) (embedding : Vector)
           (chunk chapter_id chapter_title : str) (idx total : nat) : PointStruct :=
  {| point_id := id;
     point_vector := embedding;
     point_payload :=
       {| payload_text := chunk;
          payload_chapter_id := chapter_id;
          payload_chapter_title := chapter_title;
          payload_chunk_index := idx;
          payload_total_chunks := total |} |}.

(** Chunk [idx] fails with [e] in state [st]: the embedding request
    fails, a metadata key is missing, the point id cannot be computed, or
    the store refuses the point. *)
Inductive chunk_failure (env : Env) (metadata : gmap str str) (total idx : nat)
          (chunk : str) (st : State) : exn -> Prop :=
| embedding_failed e :
    embeddings_create env (calls st) chunk = Raise e ->
    chunk_failure env metadata total idx chunk st e
| chapter_id_missing embedding :
    embeddings_create env (calls st) chunk = Return embedding ->
    metadata !! lit "chapter_id" = None ->
    chunk_failure env metadata total idx chunk st (Exn KeyError (lit "'chapter_id'"))
| chapter_id_not_encodable embedding chapter_id e :
    embeddings_create env (calls st) chunk = Return embedding ->
    metadata !! lit "chapter_id" = Some chapter_id ->
    content_id chapter_id idx = Raise e ->
    chunk_failure env metadata total idx chunk st e
| chapter_title_missing embedding chapter_id id :
    embeddings_create env (calls st) chunk = Return embedding ->
    metadata !! lit "chapter_id" = Some chapter_id ->
    content_id chapter_id idx = Return id ->
    metadata !! lit "chapter_title" = None ->
    chunk_failure env metadata total idx chunk st (Exn KeyError (lit "'chapter_title'"))
| upsert_failed embedding chapter_id id chapter_title e :
    embeddings_create env (calls st) chunk = Return embedding ->
    metadata !! lit "chapter_id" = Some chapter_id ->
    content_id chapter_id idx = Return id ->
    metadata !! lit "chapter_title" = Some chapter_title ->
    qdrant_upsert env (calls st ++ [EmbeddingsCreate embedding_model chunk])
                  [chunk_point id embedding chunk chapter_id chapter_title idx total]
    = Some e ->
    chunk_failure env metadata total idx chunk st e.

End EmbeddingService.

(* ===================================================================== *)
(** ** services/rag_service.py *)
(* ===================================================================== *)

Module RAGService.
Import EmbeddingService.

Definition model : str := lit "gpt-4o-mini".

Definition nl : str := [10%N].

Definition default_system_prompt : str :=
  lit "You are an expert AI tutor teaching Physical AI and Humanoid Robotics.

Your role is to:
- Answer questions based on the provided context from the textbook
- Be clear, concise, and educational
- Use examples to illustrate complex concepts
- If the context doesn't contain enough information, acknowledge this and provide what you can
- Maintain a friendly, encouraging tone suitable for students

When answering:
1. Focus on the most relevant information from the context
2. Break down complex topics into understandable parts
3. Reference specific concepts from the textbook when applicable
4. Encourage further learning and exploration".

(** [for idx, doc in enumerate(context_docs, idx)] *)
Fixpoint context_parts (idx : nat) (context_docs : list Doc) : list str :=
  match context_docs with
  | [] => []
  | doc :: rest =>
      (lit "[Source " ++ str_of_nat idx ++ lit ": " ++ doc_chapter_title doc
         ++ lit "]" ++ nl ++ doc_text doc)
      :: context_parts (S idx) rest
  end.

(** [sep.join(parts)] *)
Fixpoint join (sep : str) (parts : list str) : str :=
  match parts with
  | [] => []
  | [p] => p
  | p :: rest => p ++ sep ++ join sep rest
  end.

Definition generate_request (query : str) (context_docs : list Doc) : ChatRequest :=
  let context := join (nl ++ nl) (context_parts 1 context_docs) in
  {| chat_model := model;
     chat_messages :=
       [ (lit "system", default_system_prompt);
         (lit "user",
          lit "Context from textbook:" ++ nl ++ nl ++ context ++ nl ++ nl
            ++ lit "Student's question: " ++ query) ];
     chat_temperature := 7;
     chat_max_tokens := Some 1000;
     chat_json_object := false |}.

(** [generate_response] as [answer_with_context] calls it: default system
    prompt, temperature 0.7, max_tokens 1000.  The answer is
    [response.choices[0].message.content], which may be [None]. *)
Definition generate_response (env : Env) (query : str) (context_docs : list Doc)
  : M (option str) :=
  try_except
    (fun st =>
       let request := generate_request query context_docs in
       (chat_create env (calls st) request, record_call (ChatCreate request) st))
    (fun e =>
       logger_error (lit "Error generating response: " ++ exn_msg e) ;;
       raise e).

Definition fallback_message : str :=
  lit "I couldn't find relevant information in the textbook to answer your question. "
  ++ lit "Could you please rephrase or ask about a different topic?".

Definition answer_with_context (env : Env) (query : str)
           (chapter_id : option str) (limit : Z)
  : M (option str * list Doc) :=
  (* Retrieve relevant context *)
  let* context_docs := search_similar env query limit chapter_id in
  match context_docs with
  | [] => ret (Some fallback_message, [])
  | _ :: _ =>
      (* Generate response *)
      let* answer := generate_response env query context_docs in
      ret (answer, context_docs)
  end.

Definition generate_error_message (e : exn) : str :=
  lit "Error generating response: " ++ exn_msg e.

End RAGService.

(* ===================================================================== *)
(** ** services/translation_service.py *)
(* ===================================================================== *)

Module TranslationService.

Definition model : str := lit "gpt-4o-mini".

Definition quote : str := [34%N].

(** [f"{content}_{target_lang}"] *)
Definition hash_input (content target_lang : str) : str :=
  content ++ lit "_" ++ target_lang.

Definition _get_content_hash (content target_lang : str) : result str :=
  md5_hex (hash_input content target_lang).

(** [lang_map.get(target_lang, target_lang)] *)
Definition target_lang_name (target_lang : str) : str :=
  if bool_decide (target_lang = lit "en") then lit "English"
  else if bool_decide (target_lang = lit "ur") then lit "Urdu"
  else target_lang.

Definition system_prompt (target_lang : str) : str :=
  lit "You are a professional translator specializing in technical and educational content about Physical AI and Humanoid Robotics.

Translate the following content to " ++ target_lang_name target_lang ++ lit ":
- Maintain technical accuracy
- Keep technical terms in English when appropriate (e.g., "
  ++ quote ++ lit "Physical AI" ++ quote ++ lit ", "
  ++ quote ++ lit "robotics" ++ quote ++ lit ", "
  ++ quote ++ lit "actuator" ++ quote ++ lit ")
- Preserve formatting (markdown, code blocks, etc.)
- Ensure the translation is natural and readable
- Maintain the educational tone".

Definition translate_request (content target_lang : str) : ChatRequest :=
  {| chat_model := model;
     chat_messages :=
       [ (lit "system", system_prompt target_lang);
         (lit "user", content) ];
     chat_temperature := 3;
     chat_max_tokens := Some 4000;
     chat_json_object := false |}.

(** [db.query(TranslationCache).filter(content_hash == h).first()] *)
Definition query_first (h : str) : M (option TranslationCache) :=
  fun st =>
    (Return (List.find (fun row => bool_decide (content_hash row = h)) (cache st)),
     record_call (DbQuery h) st).

(** [db.add(cache_entry); db.commit()].  The table refuses a null
    [translated_content] and a second row with the same [content_hash];
    any other refusal (column width, connection) is the store's. *)
Definition add_and_commit (env : Env) (h source_lang target_lang : str)
           (translated : option str) : M str :=
  match translated with
  | None =>
      raise (Exn IntegrityError (lit "null value in column translated_content"))
  | Some text =>
      fun st =>
        let row := {| content_hash := h; source_lang := source_lang;
                      target_lang := target_lang; translated_content := text |} in
        let st' := record_call (DbCommit row) st in
        if existsb (fun r => bool_decide (content_hash r = h)) (cache st)
        then (Raise (Exn IntegrityError (lit "duplicate key value")), st')
        else match db_commit env (calls st) row with
             | Some e => (Raise e, st')
             | None => (Return text, set_cache (fun rows => rows ++ [row]) st')
             end
  end.

Definition translate_content (env : Env) (content target_lang source_lang : str)
  : M str :=
  (* Check cache first *)
  let* content_hash := lift (_get_content_hash content target_lang) in
  let* cached := query_first content_hash in
  match cached with
  | Some row => ret (translated_content row)
  | None =>
      (* Translate using OpenAI *)
      try_except
        (let* translated :=
           (fun st =>
              let request := translate_request content target_lang in
              (chat_create env (calls st) request,
               record_call (ChatCreate request) st)) in
         (* Cache the result *)
         add_and_commit env content_hash source_lang target_lang translated)
        (fun e =>
           logger_error (lit "Error translating content: " ++ exn_msg e) ;;
           raise e)
  end.

(** A row without its [source_lang]. *)
Definition without_source_lang (row : TranslationCache) : str * str * str :=
  (content_hash row, target_lang row, translated_content row).

(** [for content in contents] of [translate_batch]; [translations] is the
    list built so far.  The source language is the default, ["en"]. *)
Fixpoint translate_batch_loop (env : Env) (contents : list str) (target_lang : str)
         (translations : list str) : M (list str) :=
  match contents with
  | [] => ret translations
  | content :: rest =>
      let* translated := translate_content env content target_lang (lit "en") in
      translate_batch_loop env rest target_lang (translations ++ [translated])
  end.

Definition translate_batch (env : Env) (contents : list str) (target_lang : str)
  : M (list str) :=
  translate_batch_loop env contents target_lang [].

(** The row that a lookup of [(content, target_lang)] finds holds [text]. *)
Definition cached (rows : list TranslationCache) (content target_lang text : str)
  : Prop :=
  exists h row,
    _get_content_hash content target_lang = Return h
    /\ List.find (fun r => bool_decide (content_hash r = h)) rows = Some row
    /\ translated_content row = text.

End TranslationService.

(* ===================================================================== *)
(** ** services/personalization_service.py *)
(* ===================================================================== *)

Module PersonalizationService.

Definition model : str := lit "gpt-4o-mini".

Definition nl : str := [10%N].
Definition q (s : String.string) : str := [34%N] ++ lit s ++ [34%N].




(** [json.loads(s)] on the message content. *)
Definition loads (env : Env) (content : option str) : M pyval :=
  match content with
  | None => raise (Exn TypeError (lit "the JSON object must be str, bytes or bytearray, not NoneType"))
  | Some s =>
      match json_loads env s with
      | Some v => ret v
      | None => raise (Exn JSONDecodeError (lit "Expecting value"))
      end
  end.

Fixpoint lookup_key (key : str) (items : list (str * pyval)) : option pyval :=
  match items with
  | [] => None
  | (k, v) :: rest => if bool_decide (k = key) then Some v else lookup_key key rest
  end.






Definition learning_path_prompt (software_bg hardware_bg : str) : str :=
  lit "You are an educational advisor for a Physical AI and Humanoid Robotics course.

User Background:
- Software: " ++ software_bg ++ lit "
- Hardware: " ++ hardware_bg ++ lit "

Create a personalized learning path that:
1. Starts with fundamentals they might be missing
2. Builds progressively on their existing knowledge
3. Highlights chapters that might be challenging
4. Suggests focus areas based on their background

Return a JSON object with:
{
  " ++ q "recommended_order" ++ lit ": [" ++ q "chapter1" ++ lit ", " ++ q "chapter2" ++ lit ", ...],
  " ++ q "difficulty_map" ++ lit ": {" ++ q "chapter1" ++ lit ": " ++ q "easy" ++ lit ", "
    ++ q "chapter2" ++ lit ": " ++ q "medium" ++ lit ", ...},
  " ++ q "focus_areas" ++ lit ": [" ++ q "area1" ++ lit ", " ++ q "area2" ++ lit ", ...],
  " ++ q "prerequisites" ++ lit ": {" ++ q "chapter_x" ++ lit ": [" ++ q "prereq1" ++ lit ", "
    ++ q "prereq2" ++ lit "]}
}".

(** ["\n".join([f"- {ch}" for ch in chapters])] *)
Fixpoint chapters_list (chapters : list str) : str :=
  match chapters with
  | [] => []
  | [ch] => lit "- " ++ ch
  | ch :: rest => lit "- " ++ ch ++ nl ++ chapters_list rest
  end.

Definition learning_path_request (software_bg hardware_bg : str)
           (chapters : list str) : ChatRequest :=
  {| chat_model := model;
     chat_messages :=
       [ (lit "system", learning_path_prompt software_bg hardware_bg);
         (lit "user", lit "Available chapters:" ++ nl ++ chapters_list chapters) ];
     chat_temperature := 5;
     chat_max_tokens := None;
     chat_json_object := true |}.

(** [d[k] = v] on a dict kept as its items, in insertion order. *)
Fixpoint dict_set (k : str) (v : pyval) (items : list (str * pyval))
  : list (str * pyval) :=
  match items with
  | [] => [(k, v)]
  | (k', v') :: rest =>
      if bool_decide (k' = k) then (k', v) :: rest
      else (k', v') :: dict_set k v rest
  end.

(** [{ch: "medium" for ch in chapters}] *)
Definition difficulty_map (chapters : list str) : list (str * pyval) :=
  fold_left (fun items ch => dict_set ch (PStr (lit "medium")) items) chapters [].

(** The path returned on error. *)
Definition default_learning_path (chapters : list str) : pyval :=
  PDict [ (lit "recommended_order", PList (PStr <$> chapters));
          (lit "difficulty_map", PDict (difficulty_map chapters));
          (lit "focus_areas", PList [PStr (lit "fundamentals")]);
          (lit "prerequisites", PDict []) ].

Definition generate_learning_path (env : Env) (user_background : gmap str str)
           (chapters : list str) : M pyval :=
  let software_bg :=
    default (lit "beginner") (user_background !! lit "software_background") in
  let hardware_bg :=
    default (lit "none") (user_background !! lit "hardware_background") in
  try_except
    (let* response :=
       (fun st =>
          let request := learning_path_request software_bg hardware_bg chapters in
          (chat_create env (calls st) request,
           record_call (ChatCreate request) st)) in
     loads env response)
    (fun e =>
       logger_error (lit "Error generating learning path: " ++ exn_msg e) ;;
       (* Return default path on error *)
       ret (default_learning_path chapters)).

(** The reply cannot be decoded: the call failed, the message has no
    content, or the content is not JSON. *)
Inductive undecodable (env : Env) : result (option str) -> Prop :=
| call_failed e : undecodable env (Raise e)
| content_missing : undecodable env (Return None)
| content_not_json s : json_loads env s = None -> undecodable env (Return (Some s)).

End PersonalizationService.

(* ===================================================================== *)
(** ** embed_content.py (the batch script) *)
(* ===================================================================== *)

Module EmbedScript.

Record ChunkMetadata := {
  meta_title : str;
  meta_file_path : str;
  meta_chunk_index : nat;
  meta_total_chunks : nat }.

(** A chunk object, as [process_markdown_file] builds it. *)
Record ChunkObj := {
  chunk_text : str;
  chunk_metadata : ChunkMetadata }.

Record Point := {
  id : str;
  vector : Vector;
  text : str;
  title : str;
  file_path : str;
  chunk_index : nat;
  total_chunks : nat }.

(** The collaborators of the script: the reply to the [n]-th call of each
    kind.  [uuid4 n] is the [n]-th random identifier drawn. *)
Record Env := {
  get_embedding : nat -> str -> result Vector;
  uuid4 : nat -> str;
  upsert : nat -> list Point -> option exn;
  delete_collection : option exn;
  create_collection_fault : option exn }.

(** [collection]: the points of [physical_ai_textbook], [None] when the
    collection does not exist. *)
Record State := {
  collection : option (gmap str Point);
  embedded : nat;        (* embedding calls made *)
  drawn : nat;           (* identifiers drawn *)
  upserts : nat }.       (* upsert calls made *)

Definition upsert_points (pts : list Point) (m : gmap str Point) : gmap str Point :=
  fold_left (fun m p => <[id p := p]> m) pts m.

(** [create_collection()]: delete the collection if it exists (failures
    ignored), then create it; creating a collection that exists fails. *)
Definition create_collection (env : Env) (st : State) : result unit * State :=
  let st1 :=
    match delete_collection env with
    | None => {| collection := None; embedded := embedded st;
                 drawn := drawn st; upserts := upserts st |}
    | Some _ => st
    end in
  match create_collection_fault env, collection st1 with
  | Some e, _ => (Raise e, st1)
  | None, Some _ => (Raise (Exn StoreError (lit "Collection already exists")), st1)
  | None, None =>
      (Return tt, {| collection := Some ∅; embedded := embedded st1;
                     drawn := drawn st1; upserts := upserts st1 |})
  end.

(** The body of the [try] for chunk [i] of [n]; [pending] is the list
    [points].  Returns [points] as the iteration leaves it: an exception
    is caught and the loop continues with [points] as it was when raised. *)
Definition upload_chunk (env : Env) (n i : nat) (chunk_obj : ChunkObj)
           (pending : list Point) (st : State) : list Point * State :=
  let st1 := {| collection := collection st; embedded := S (embedded st);
                drawn := drawn st; upserts := upserts st |} in
  match get_embedding env (embedded st) (chunk_text chunk_obj) with
  | Raise _ => (pending, st1)                       (* except: continue *)
  | Return embedding =>
      let point :=
        {| id := uuid4 env (drawn st1);
           vector := embedding;
           text := chunk_text chunk_obj;
           title := meta_title (chunk_metadata chunk_obj);
           file_path := meta_file_path (chunk_metadata chunk_obj);
           chunk_index := meta_chunk_index (chunk_metadata chunk_obj);
           total_chunks := meta_total_chunks (chunk_metadata chunk_obj) |} in
      let st2 := {| collection := collection st1; embedded := embedded st1;
                    drawn := S (drawn st1); upserts := upserts st1 |} in
      let pending := pending ++ [point] in
      (* Upload in batches of 100 *)
      if (100 <=? length pending)%nat || (Z.of_nat i =? Z.of_nat n - 1) then
        let st3 := {| collection := collection st2; embedded := embedded st2;
                      drawn := drawn st2; upserts := S (upserts st2) |} in
        match upsert env (upserts st2) pending, collection st2 with
        | None, Some m =>
            ([], {| collection := Some (upsert_points pending m);
                    embedded := embedded st3; drawn := drawn st3;
                    upserts := upserts st3 |})
        | _, _ => (pending, st3)                    (* except: continue *)
        end
      else (pending, st2)
  end.

(** [for i, chunk_obj in enumerate(all_chunks)], from index [i] on. *)
Fixpoint upload_from (env : Env) (n i : nat) (chunks : list ChunkObj)
         (pending : list Point) (st : State) : State :=
  match chunks with
  | [] => st
  | chunk_obj :: rest =>
      let '(pending', st') := upload_chunk env n i chunk_obj pending st in
      upload_from env n (S i) rest pending' st'
  end.

(** [embed_documents()] once the chunk objects of all files are
    collected: recreate the collection, then embed and upload. *)
Definition embed_documents (env : Env) (all_chunks : list ChunkObj) (st : State)
  : result unit * State :=
  match create_collection env st with
  | (Raise e, st') => (Raise e, st')
  | (Return _, st') =>
      (Return tt, upload_from env (length all_chunks) 0 all_chunks [] st')
  end.

(** The identifiers drawn from number [a] on, [k] of them. *)
Definition drawn_ids (env : Env) (a k : nat) : list str := uuid4 env <$> seq a k.

End EmbedScript.

(* ===================================================================== *)
(** ** embed_content.py: text preparation *)
(* ===================================================================== *)

Module ScriptText.

(** [re.sub(r'[^\x00-\x7F]+', '', text)] *)
Definition remove_non_ascii (text : str) : str :=
  List.filter (fun c => (c <=? 127)%N) text.

(** [re.sub(r'\s+', ' ', text)]: every maximal run of whitespace becomes
    one space.  [in_run] tells that the previous character was whitespace. *)
Fixpoint collapse_whitespace (in_run : bool) (text : str) : str :=
  match text with
  | [] => []
  | c :: rest =>
      if isspace c then
        if in_run then collapse_whitespace true rest
        else 32%N :: collapse_whitespace true rest
      else c :: collapse_whitespace false rest
  end.

Definition clean_text (text : str) : str :=
  (* Remove emojis and special characters *)
  let text := remove_non_ascii text in
  (* Remove extra whitespace *)
  let text := collapse_whitespace false text in
  strip text.

(** [s.rfind(sub, a, b)]: the highest index of an occurrence of [sub] that
    lies within [s[a:b]], or -1. *)
Definition rfind_between (s sub : str) (a b : Z) : Z :=
  let r := rfind (slice s a b) sub in
  if r <? 0 then -1 else adjust (len s) a + r.

(** The [while] loop of the script's [chunk_text]; [fuel] as in
    [EmbeddingService.chunk_loop]. *)
Fixpoint chunk_loop (fuel : nat) (text : str) (chunk_size overlap : Z)
         (start : Z) (chunks : list str) : option (list str) :=
  match fuel with
  | O => None
  | S fuel' =>
      let text_length := len text in
      if start <? text_length then
        let end_ := start + chunk_size in
        (* Try to break at a sentence boundary *)
        let end_ :=
          if end_ <? text_length then
            (* Look for sentence endings *)
            let sentence_end := rfind_between text (lit ". ") start end_ in
            if negb (sentence_end =? -1) && (sentence_end >? start + chunk_size / 2)
            then sentence_end + 1
            else end_
          else end_ in
        let chunk := strip (slice text start end_) in
        let chunks := match chunk with [] => chunks | _ :: _ => chunks ++ [chunk] end in
        let start := if end_ <? text_length then end_ - overlap else text_length in
        chunk_loop fuel' text chunk_size overlap start chunks
      else Some chunks
  end.

Definition chunk_text (fuel : nat) (text : str) (chunk_size overlap : Z)
  : option (list str) :=
  chunk_loop fuel text chunk_size overlap 0 [].

(** Shape of a cleaned text: a whitespace character is a single space
    followed by a character that is not whitespace. *)
Definition clean_head (s : str) : Prop :=
  match s with [] => True | c :: _ => isspace c = false end.

Fixpoint single_spaced (s : str) : Prop :=
  match s with
  | [] => True
  | c :: rest => (isspace c = true -> c = 32%N /\ clean_head rest) /\ single_spaced rest
  end.

Definition tidy (s : str) : Prop :=
  Forall (fun c => (c <= 127)%N) s
  /\ single_spaced s /\ clean_head s /\ clean_head (rev s).

(** The characters that cleaning keeps: ASCII and not whitespace. *)
Definition visible (c : char) : bool := (c <=? 127)%N && negb (isspace c).

End ScriptText.

(* ===================================================================== *)
(** ** scripts/embed_content.py (embedding every chapter) *)
(* ===================================================================== *)

Module EmbedAllChapters.
Import EmbeddingService.

(** [s.replace(old, new)] for a non-empty [old]: the occurrences are
    replaced from the left, without overlap.  [skip] counts the characters
    of the occurrence just replaced that are still to be passed over. *)
Fixpoint replace_aux (skip : nat) (s old new : str) : str :=
  match s with
  | [] => []
  | c :: rest =>
      match skip with
      | S k => replace_aux k rest old new
      | O =>
          if startswith s old
          then new ++ replace_aux (length old - 1) rest old new
          else c :: replace_aux 0 rest old new
      end
  end.

Definition replace (s old new : str) : str := replace_aux 0 s old new.

(** A markdown file found under the docs directory: its name, its path
    relative to the docs directory, and what reading it gives ([None] when
    [open] or [read] raises; the exception is only printed). *)
Record MdFile := {
  md_name : str;
  md_relative : str;
  md_read : option str }.

(** The counters of the run. *)
Record Summary := {
  total_chunks : Z;
  successful : Z;
  failed : Z }.

Definition backslash : str := [92%N].

Section Title.

(** [str.title()] *)
Variable title : str -> str.

Definition chapter_metadata (md_file : MdFile) : gmap str str :=
  (* Generate chapter ID and title *)
  let chapter_id := replace (md_relative md_file) backslash (lit "/") in
  let chapter_title :=
    title (replace (replace chapter_id (lit ".md") (lit "")) (lit "/") (lit " - ")) in
  <[lit "chapter_id" := chapter_id]> (<[lit "chapter_title" := chapter_title]> ∅).

(** The body of [for md_file in md_files], with its [try]. *)
Definition embed_file (env : Env) (md_file : MdFile) (summary : Summary) (st : State)
  : Summary * State :=
  match md_read md_file with
  | None =>
      ({| total_chunks := total_chunks summary; successful := successful summary;
          failed := failed summary + 1 |}, st)
  | Some content =>
      (* Skip if file is too short *)
      if len content <? 100 then (summary, st)
      else
        (* Embed content *)
        match embed_content env content (chapter_metadata md_file) st with
        | (Return num_chunks, st') =>
            ({| total_chunks := total_chunks summary + num_chunks;
                successful := successful summary + 1;
                failed := failed summary |}, st')
        | (Raise _, st') =>
            ({| total_chunks := total_chunks summary; successful := successful summary;
                failed := failed summary + 1 |}, st')
        end
  end.

Fixpoint embed_files (env : Env) (md_files : list MdFile) (summary : Summary)
         (st : State) : Summary * State :=
  match md_files with
  | [] => (summary, st)
  | md_file :: rest =>
      let '(summary', st') := embed_file env md_file summary st in
      embed_files env rest summary' st'
  end.

(** [embed_all_chapters()] once the markdown files are found. *)
Definition embed_all_chapters (env : Env) (md_files : list MdFile) (st : State)
  : Summary * State :=
  embed_files env md_files {| total_chunks := 0; successful := 0; failed := 0 |} st.

End Title.

(** A file that the loop tries to embed: it cannot be read, or it has at
    least 100 characters. *)
Definition attempted (md_file : MdFile) : bool :=
  match md_read md_file with
  | None => true
  | Some content => negb (len content <? 100)
  end.

End EmbedAllChapters.

(* ===================================================================== *)
(** ** Stub collaborators, used to run the services on concrete inputs *)
(* ===================================================================== *)

Module Stub.

Definition provider_down : exn := Exn ProviderError (lit "rate limit exceeded").
Definition store_down : exn := Exn StoreError (lit "connection refused").

(** Every collaborator answers; the index is empty. *)
Definition env_ok : Env :=
  {| embeddings_create := fun _ _ => Return [1; 2; 3];
     qdrant_upsert := fun _ _ => None;
     qdrant_search := fun _ _ _ _ => Return [];
     qdrant_delete := fun _ _ => None;
     chat_create := fun _ _ => Return (Some (lit "ok"));
     db_commit := fun _ _ => None;
     json_loads := fun _ => None |}.

(** The provider fails every call. *)
Definition env_provider_down : Env :=
  {| embeddings_create := fun _ _ => Raise provider_down;
     qdrant_upsert := fun _ _ => None;
     qdrant_search := fun _ _ _ _ => Return [];
     qdrant_delete := fun _ _ => None;
     chat_create := fun _ _ => Raise provider_down;
     db_commit := fun _ _ => None;
     json_loads := fun _ => None |}.

(** The provider answers its first call and fails afterwards. *)
Definition env_provider_fails_later : Env :=
  {| embeddings_create :=
       fun history _ => match history with [] => Return [1; 2; 3] | _ => Raise provider_down end;
     qdrant_upsert := fun _ _ => None;
     qdrant_search := fun _ _ _ _ => Return [];
     qdrant_delete := fun _ _ => None;
     chat_create := fun _ _ => Raise provider_down;
     db_commit := fun _ _ => None;
     json_loads := fun _ => None |}.

(** The vector store accepts the first point and refuses every later one. *)
Definition env_store_fails_later : Env :=
  {| embeddings_create := fun _ _ => Return [1; 2; 3];
     qdrant_upsert :=
       fun history _ => match upserted history with [] => None | _ => Some store_down end;
     qdrant_search := fun _ _ _ _ => Return [];
     qdrant_delete := fun _ _ => None;
     chat_create := fun _ _ => Return (Some (lit "ok"));
     db_commit := fun _ _ => None;
     json_loads := fun _ => None |}.

(** The vector store fails every call. *)
Definition env_store_down : Env :=
  {| embeddings_create := fun _ _ => Return [1; 2; 3];
     qdrant_upsert := fun _ _ => Some store_down;
     qdrant_search := fun _ _ _ _ => Raise store_down;
     qdrant_delete := fun _ _ => Some store_down;
     chat_create := fun _ _ => Return (Some (lit "ok"));
     db_commit := fun _ _ => None;
     json_loads := fun _ => None |}.

(** The relational store enforces the width of column [source_lang]
    ([String(10)]), as PostgreSQL does. *)
Definition env_varchar : Env :=
  {| embeddings_create := fun _ _ => Return [1; 2; 3];
     qdrant_upsert := fun _ _ => None;
     qdrant_search := fun _ _ _ _ => Return [];
     qdrant_delete := fun _ _ => None;
     chat_create := fun _ _ => Return (Some (lit "ok"));
     db_commit :=
       fun _ row =>
         if 10 <? len (source_lang row)
         then Some (Exn StoreError (lit "value too long for type character varying(10)"))
         else None;
     json_loads := fun _ => None |}.



Definition st0 : State :=
  {| points := ∅; cache := []; calls := []; errors := [] |}.

(** The batch script's collaborators: identifiers are [tag0], [tag1], ... *)
Definition script_env (tag : String.string) : EmbedScript.Env :=
  {| EmbedScript.get_embedding := fun _ _ => Return [1; 2; 3];
     EmbedScript.uuid4 := fun n => lit tag ++ str_of_nat n;
     EmbedScript.upsert := fun _ _ => None;
     EmbedScript.delete_collection := None;
     EmbedScript.create_collection_fault := None |}.

Definition script_st0 : EmbedScript.State :=
  {| EmbedScript.collection := None; EmbedScript.embedded := 0;
     EmbedScript.drawn := 0; EmbedScript.upserts := 0 |}.

Definition one_chunk : list EmbedScript.ChunkObj :=
  [ {| EmbedScript.chunk_text := lit "Robots move.";
       EmbedScript.chunk_metadata :=
         {| EmbedScript.meta_title := lit "Intro";
            EmbedScript.meta_file_path := lit "docs/intro.md";
            EmbedScript.meta_chunk_index := 0;
            EmbedScript.meta_total_chunks := 1 |} |} ].

Definition metadata : gmap str str :=
  <[lit "chapter_id" := lit "intro.md"]>
    (<[lit "chapter_title" := lit "Intro"]> ∅).

(** 1500 characters: two chunks with the default sizes. *)
Definition long_content : str := repeat 97%N 1500.

(** The index answers every search with three hits, best first. *)
Definition hit (title : String.string) (score : Z) : ScoredPoint :=
  {| hit_text := Some (lit "Actuators convert electrical energy into motion.");
     hit_chapter_id := Some (lit "intro.md");
     hit_chapter_title := Some (lit title);
     hit_chunk_index := None;
     hit_score := score |}.

Definition env_three_hits : Env :=
  {| embeddings_create := fun _ _ => Return [1; 2; 3];
     qdrant_upsert := fun _ _ => None;
     qdrant_search := fun _ _ _ _ => Return [hit "A" 950; hit "B" 900; hit "C" 700];
     qdrant_delete := fun _ _ => None;
     chat_create := fun _ _ => Return (Some (lit "ok"));
     db_commit := fun _ _ => None;
     json_loads := fun _ => None |}.

(** The provider answers its first chat request and fails afterwards. *)
Definition env_chat_fails_later : Env :=
  {| embeddings_create := fun _ _ => Return [1; 2; 3];
     qdrant_upsert := fun _ _ => None;
     qdrant_search := fun _ _ _ _ => Return [];
     qdrant_delete := fun _ _ => None;
     chat_create :=
       fun history _ =>
         match chat_calls history with
         | [] => Return (Some (lit "ok"))
         | _ :: _ => Raise provider_down
         end;
     db_commit := fun _ _ => None;
     json_loads := fun _ => None |}.

(** The batch script's collaborators when the second embedding request
    fails. *)
Definition script_env_last_fails : EmbedScript.Env :=
  {| EmbedScript.get_embedding :=
       fun n _ => match n with 1%nat => Raise provider_down | _ => Return [1; 2; 3] end;
     EmbedScript.uuid4 := fun n => lit "uuid-" ++ str_of_nat n;
     EmbedScript.upsert := fun _ _ => None;
     EmbedScript.delete_collection := None;
     EmbedScript.create_collection_fault := None |}.

Definition second_chunk : EmbedScript.ChunkObj :=
  {| EmbedScript.chunk_text := lit "Actuators convert energy.";
     EmbedScript.chunk_metadata :=
       {| EmbedScript.meta_title := lit "Intro";
          EmbedScript.meta_file_path := lit "docs/intro.md";
          EmbedScript.meta_chunk_index := 1;
          EmbedScript.meta_total_chunks := 2 |} |}.

(** The batch script's collaborators when nothing fails; the [n]-th
    identifier is [n] times the letter a. *)
Definition script_env_unary : EmbedScript.Env :=
  {| EmbedScript.get_embedding := fun _ _ => Return [1; 2; 3];
     EmbedScript.uuid4 := fun n => repeat 97%N n;
     EmbedScript.upsert := fun _ _ => None;
     EmbedScript.delete_collection := None;
     EmbedScript.create_collection_fault := None |}.

End Stub.

(* ===================================================================== *)
(** ** Checks of the primitives against the Python runtime *)
(* ===================================================================== *)

Example md5_empty : md5_hex (lit "") = Return (lit "d41d8cd98f00b204e9800998ecf8427e").
Proof. vm_compute. reflexivity. Qed.

Example md5_abc : md5_hex (lit "abc") = Return (lit "900150983cd24fb0d6963f7d28e17f72").
Proof. vm_compute. reflexivity. Qed.

Example md5_chunk_id : md5_hex (lit "docs/intro.md_12") = Return (lit "cf21b5e9e3bade0e617ca820560981a2").
Proof. vm_compute. reflexivity. Qed.

Example md5_two_blocks :
  md5_hex (repeat 97%N 70) = Return (lit "0f5c6c4e740bfcc08c3c26ccb2673d46").
Proof. vm_compute. reflexivity. Qed.

(** "héllo_ur": a two-byte code point. *)
Example md5_utf8 :
  md5_hex (lit "h" ++ [233%N] ++ lit "llo_ur") = Return (lit "67332b53a4642c136f4c3629dd118ef1").
Proof. vm_compute. reflexivity. Qed.

Example md5_padding_boundaries :
  md5_hex (repeat 97%N 55) = Return (lit "ef1772b6dff9a122358552954ad0df65")
  /\ md5_hex (repeat 97%N 56) = Return (lit "3b0c8ac703f828b04c6c197006d17218")
  /\ md5_hex (repeat 97%N 60) = Return (lit "cc7ed669cf88f201c3297c6a91e1d18d")
  /\ md5_hex (repeat 97%N 64) = Return (lit "014842d480b571495a4a0363793f7367").
Proof. vm_compute. repeat split. Qed.

(** A three-byte code point (the euro sign) and a four-byte one (U+1F600);
    a lone surrogate cannot be encoded. *)
Example md5_utf8_long :
  md5_hex ([8364%N] ++ lit "_ur") = Return (lit "0bee56ef83519338fa89cb5f52e2f2f2")
  /\ md5_hex ([128512%N] ++ lit "_en") = Return (lit "33b58633a756643dbc39c63143d4dfd9")
  /\ md5_hex ([55357%N] ++ lit "_en")
     = Raise (Exn UnicodeEncodeError (lit "surrogates not allowed")).
Proof. vm_compute. repeat split. Qed.

Example slice_negative : slice (lit "abcdefgh") (-2) 5 = [].
Proof. reflexivity. Qed.

Example slice_clamped : slice (lit "abc") 1 10 = lit "bc".
Proof. reflexivity. Qed.

Example rfind_last : rfind (lit "a. b. c") (lit ". ") = 4.
Proof. reflexivity. Qed.

Example rfind_none : rfind (lit "abc") (lit ". ") = -1.
Proof. reflexivity. Qed.

Example strip_both : strip (lit "  a b ") = lit "a b".
Proof. reflexivity. Qed.

Example str_of_nat_12 : str_of_nat 12 = lit "12".
Proof. reflexivity. Qed.

(** [str.isspace]: the whitespace code points, and their neighbours. *)
Example isspace_table :
  forallb isspace
    [9; 10; 11; 12; 13; 28; 29; 30; 31; 32; 133; 160; 5760;
     8192; 8193; 8194; 8195; 8196; 8197; 8198; 8199; 8200; 8201; 8202;
     8232; 8233; 8239; 8287; 12288]%N = true
  /\ existsb isspace
       [0; 8; 14; 27; 33; 46; 97; 132; 134; 159; 161; 5759; 5761; 8191; 8203;
        8231; 8234; 8238; 8240; 8286; 8288; 12287; 12289]%N = false.
Proof. split; reflexivity. Qed.

(** Runs of the chunker. *)
Example chunk_text_robots :
  EmbeddingService.chunk_text 10
    (lit "Robots move. Actuators convert electrical energy into motion. This is fundamental.")
    40 10
  = Some [lit "Robots move. Actuators convert electrica";
          lit "electrical energy into motion.";
          lit "to motion. This is fundamental."].
Proof. vm_compute. reflexivity. Qed.

Example chunk_text_sentences :
  EmbeddingService.chunk_text 10 (lit "one. two. three. four. five. six. seven.") 12 3
  = Some [lit "one. two."; lit "wo. three."; lit "ee. four."; lit "ur. five.";
          lit "ve. six."; lit "ix. seven."].
Proof. vm_compute. reflexivity. Qed.

Example chunk_text_no_overlap :
  EmbeddingService.chunk_text 10 (lit "abcdefghij") 4 0
  = Some [lit "abcd"; lit "efgh"; lit "ij"].
Proof. vm_compute. reflexivity. Qed.

Example chunk_text_stripped :
  EmbeddingService.chunk_text 10 (lit "  hello world  ") 100 10 = Some [lit "hello world"].
Proof. vm_compute. reflexivity. Qed.

(* ===================================================================== *)
(** ** Chunker *)
(* ===================================================================== *)

Section Chunker.
Import EmbeddingService.

Lemma chunk_loop_unfold fuel text chunk_size overlap start chunks :
  chunk_loop (S fuel) text chunk_size overlap start chunks =
  if start <? len text then
    chunk_loop fuel text chunk_size overlap
               (chunk_step text chunk_size overlap start).2
               (chunks ++ [(chunk_step text chunk_size overlap start).1])
  else Some chunks.
Proof.
  cbn [chunk_loop]. unfold chunk_step.
  destruct (start <? len text); [|reflexivity].
  destruct (start + chunk_size <? len text); [|reflexivity].
  destruct (rfind _ _ >? chunk_size / 2); reflexivity.
Qed.

(** More fuel never changes a result. *)
Lemma chunk_loop_fuel_mono fuel fuel' text chunk_size overlap start chunks r :
  (fuel <= fuel')%nat ->
  chunk_loop fuel text chunk_size overlap start chunks = Some r ->
  chunk_loop fuel' text chunk_size overlap start chunks = Some r.
Proof.
  revert fuel' start chunks.
  induction fuel as [|fuel IH]; intros fuel' start chunks Hle H; [discriminate|].
  destruct fuel' as [|fuel']; [lia|].
  rewrite chunk_loop_unfold in *.
  destruct (start <? len text); [|exact H].
  apply IH; [lia|exact H].
Qed.

(** The next [start] lies strictly ahead, and not beyond the end of the
    text, when the overlap is at most half of the chunk size. *)
Lemma chunk_step_progress text chunk_size overlap start :
  0 <= overlap -> overlap < chunk_size -> overlap <= chunk_size / 2 ->
  start < len text ->
  start < (chunk_step text chunk_size overlap start).2 <= len text.
Proof.
  intros H0 Hlt Hhalf Hs. unfold chunk_step.
  destruct (start + chunk_size <? len text) eqn:He.
  - apply Z.ltb_lt in He.
    destruct (rfind _ _ >? chunk_size / 2) eqn:Hp.
    + apply Z.gtb_lt in Hp. cbn [snd].
      destruct (_ <? len text) eqn:He'; [apply Z.ltb_lt in He'|]; lia.
    + cbn [snd]. rewrite (proj2 (Z.ltb_lt _ _) He). lia.
  - cbn [snd]. rewrite He. lia.
Qed.

Lemma chunk_loop_terminates text chunk_size overlap :
  0 <= overlap -> overlap < chunk_size -> overlap <= chunk_size / 2 ->
  forall fuel start chunks,
    0 <= start ->
    (Z.to_nat (len text - start) < fuel)%nat ->
    exists r, chunk_loop fuel text chunk_size overlap start chunks = Some r.
Proof.
  intros H0 Hlt Hhalf.
  induction fuel as [|fuel IH]; intros start chunks Hs Hf; [lia|].
  rewrite chunk_loop_unfold.
  destruct (start <? len text) eqn:Hc; [|eauto].
  apply Z.ltb_lt in Hc.
  pose proof (chunk_step_progress text chunk_size overlap start H0 Hlt Hhalf Hc).
  apply IH; lia.
Qed.

(** [chunk_text] returns whenever [0 <= overlap <= chunk_size // 2] and
    [overlap < chunk_size]: [len(text) + 1] evaluations of the loop
    condition suffice, and more fuel gives the same list. *)
Lemma chunk_text_terminates text chunk_size overlap :
  0 <= overlap -> overlap < chunk_size -> overlap <= chunk_size / 2 ->
  exists r, forall fuel,
    (S (length text) <= fuel)%nat ->
    chunk_text fuel text chunk_size overlap = Some r.
Proof.
  intros H0 Hlt Hhalf.
  destruct (chunk_loop_terminates text chunk_size overlap H0 Hlt Hhalf
              (S (length text)) 0 []) as [r Hr]; [lia|unfold len; lia|].
  exists r. intros fuel Hf. unfold chunk_text.
  eapply chunk_loop_fuel_mono; eauto.
Qed.

(** The default call of [embed_content] returns. *)
Lemma chunk_text_default_returns content :
  chunk_text (S (length content)) content 1000 200
  = Some (chunk_text_default content).
Proof.
  destruct (chunk_text_terminates content 1000 200) as [r Hr];
    [lia|lia|vm_compute; discriminate|].
  unfold chunk_text_default. rewrite Hr by lia. reflexivity.
Qed.

Lemma slice_all {A} (s : list A) (b : Z) : len s <= b -> slice s 0 b = s.
Proof.
  intros H. unfold slice, adjust, len in *.
  change (0 <? 0) with false. cbv iota.
  destruct (b <? 0) eqn:Hb; [apply Z.ltb_lt in Hb; lia|].
  rewrite Z.min_r by lia. rewrite Z.min_l by lia.
  rewrite Z.sub_0_r, Nat2Z.id. cbn [Z.to_nat drop].
  apply firstn_all.
Qed.

Lemma chunk_text_empty fuel chunk_size overlap :
  chunk_text (S fuel) [] chunk_size overlap = Some [].
Proof. reflexivity. Qed.

(** C7, as stated, fails on the empty text: its length is at most the
    chunk size, and [chunk_text] returns no chunk at all. *)
Lemma chunk_text_empty_text_no_chunk :
  len (lit "") <= 1000
  /\ chunk_text 1 (lit "") 1000 200 = Some []
  /\ forall fuel chunk, chunk_text fuel (lit "") 1000 200 <> Some [chunk].
Proof.
  split; [vm_compute; discriminate|]. split; [reflexivity|].
  intros [|fuel] chunk; [discriminate|].
  change (lit "") with (@nil N). rewrite chunk_text_empty. discriminate.
Qed.

(** C7 (amended): a non-empty text no longer than [chunk_size] yields
    exactly one chunk, the text stripped of surrounding whitespace,
    whatever the overlap. *)
Theorem chunk_text_short_single_chunk text chunk_size overlap fuel :
  text <> [] ->
  len text <= chunk_size ->
  (2 <= fuel)%nat ->
  chunk_text fuel text chunk_size overlap = Some [strip text].
Proof.
  intros Hne Hlen Hfuel.
  apply (chunk_loop_fuel_mono 2); [exact Hfuel|].
  assert (Hpos : 0 < len text).
  { unfold len. destruct text; [congruence|cbn; lia]. }
  unfold chunk_text. rewrite chunk_loop_unfold.
  rewrite (proj2 (Z.ltb_lt 0 (len text)) Hpos).
  assert (Hstep : chunk_step text chunk_size overlap 0 = (strip text, len text)).
  { unfold chunk_step. rewrite Z.add_0_l.
    destruct (chunk_size <? len text) eqn:E; [apply Z.ltb_lt in E; lia|].
    cbv beta iota zeta. rewrite E.
    rewrite slice_all by exact Hlen. reflexivity. }
  rewrite Hstep. cbn [fst snd app].
  rewrite chunk_loop_unfold, Z.ltb_irrefl. reflexivity.
Qed.

Lemma chunk_text_short_single_chunk_witness :
  chunk_text 2 (lit " Robots move. ") 40 10 = Some [lit "Robots move."].
Proof.
  apply (chunk_text_short_single_chunk (lit " Robots move. ") 40 10 2).
  - discriminate.
  - vm_compute. discriminate.
  - lia.
Defined.

(** C6 at [chunk_size = 10], [overlap = 9]: the sentence break at index 6
    ends the first window at 7, so the next window starts at 7 - 9 = -2;
    the windows at -2 and -1 are empty and lead back to 0.  The loop
    visits 0, -2, -1, 0, ... and never returns, whatever the fuel. *)
Theorem chunk_text_overlap_9_never_returns :
  let text := lit "aaaaaa. bbbbbbbbbbbbb" in
  9 < 10 /\ 0 <= 9
  /\ chunk_step text 10 9 0 = (lit "aaaaaa.", -2)
  /\ chunk_step text 10 9 (-2) = (lit "", -1)
  /\ chunk_step text 10 9 (-1) = (lit "", 0)
  /\ forall fuel, chunk_text fuel text 10 9 = None.
Proof.
  intros text.
  assert (H0 : chunk_step text 10 9 0 = (lit "aaaaaa.", -2)) by (vm_compute; reflexivity).
  assert (H2 : chunk_step text 10 9 (-2) = (lit "", -1)) by (vm_compute; reflexivity).
  assert (H1 : chunk_step text 10 9 (-1) = (lit "", 0)) by (vm_compute; reflexivity).
  assert (Hlen : len text = 21) by reflexivity.
  repeat (split; [first [lia | assumption]|]).
  assert (Hloop : forall fuel chunks,
             chunk_loop fuel text 10 9 0 chunks = None
             /\ chunk_loop fuel text 10 9 (-2) chunks = None
             /\ chunk_loop fuel text 10 9 (-1) chunks = None).
  { induction fuel as [|fuel IH]; intros chunks; [repeat split; reflexivity|].
    rewrite !chunk_loop_unfold, Hlen, H0, H2, H1.
    cbn [fst snd Z.ltb Z.compare].
    repeat split; apply IH. }
  intros fuel. apply Hloop.
Qed.

End Chunker.

(* ===================================================================== *)
(** ** Retrieval-augmented answerer *)
(* ===================================================================== *)

Section Answerer.
Import EmbeddingService RAGService.

Lemma build_results_state hits st : (build_results hits st).2 = st.
Proof.
  revert st. induction hits as [|hit hits IH]; intros st; [reflexivity|].
  cbn [build_results]. unfold bind, getitem, ret, raise.
  destruct (hit_text hit); [|reflexivity].
  destruct (hit_chapter_id hit); [|reflexivity].
  destruct (hit_chapter_title hit); [|reflexivity].
  specialize (IH st). destruct (build_results hits st) as [[r|e] st'];
    cbn in IH; subst; reflexivity.
Qed.

(** What [search_similar] adds to the history: at most the embedding of
    the query and one search; never a generation call. *)
Lemma search_similar_no_generation env query limit chapter_id st :
  chat_calls (calls (search_similar env query limit chapter_id st).2)
  = chat_calls (calls st).
Proof.
  unfold search_similar, try_except, bind, logger_error, raise.
  destruct (embeddings_create env (calls st) query) as [v|e]; cbn.
  - destruct (qdrant_search _ _ _ _ _) as [hits|e]; cbn.
    + match goal with |- context [build_results hits ?s] =>
        pose proof (build_results_state hits s) as Hs;
        destruct (build_results hits s) as [[r|e] st']
      end; cbn in Hs; subst; cbn;
      unfold chat_calls; rewrite !flat_map_app; cbn; rewrite !app_nil_r; reflexivity.
    + unfold chat_calls; rewrite !flat_map_app; cbn; rewrite !app_nil_r; reflexivity.
  - unfold chat_calls; rewrite !flat_map_app; cbn; rewrite !app_nil_r; reflexivity.
Qed.

(** C1: when retrieval returns no result, [answer_with_context] returns
    the fixed fallback message with an empty source list, in the state
    that retrieval left: no generation call is added to the history. *)
Theorem answer_with_context_empty_retrieval env query chapter_id limit st st' :
  search_similar env query limit chapter_id st = (Return [], st') ->
  answer_with_context env query chapter_id limit st
  = (Return (Some fallback_message, []), st')
  /\ chat_calls (calls st') = chat_calls (calls st).
Proof.
  intros Hs. split.
  - unfold answer_with_context, bind. rewrite Hs. reflexivity.
  - pose proof (search_similar_no_generation env query limit chapter_id st) as H.
    rewrite Hs in H. exact H.
Qed.

Lemma answer_with_context_empty_retrieval_witness :
  (answer_with_context Stub.env_ok (lit "what is a robot?") None 5 Stub.st0).1
  = Return (Some fallback_message, [])
  /\ chat_calls (calls (answer_with_context Stub.env_ok (lit "what is a robot?") None 5 Stub.st0).2)
     = [].
Proof.
  destruct (answer_with_context_empty_retrieval Stub.env_ok (lit "what is a robot?")
              None 5 Stub.st0
              (search_similar Stub.env_ok (lit "what is a robot?") 5 None Stub.st0).2)
    as [H1 H2]; [reflexivity|].
  rewrite H1. split; [reflexivity|exact H2].
Defined.

End Answerer.

(* ===================================================================== *)
(** ** Deleting a chapter's points *)
(* ===================================================================== *)

Section Deletion.
Import EmbeddingService.

(** C8, as stated, fails: with the vector store down, the call returns
    [False] to its caller and raises nothing. *)
Lemma delete_chapter_embeddings_swallows_store_failure :
  qdrant_delete Stub.env_store_down (calls Stub.st0) (lit "intro.md")
  = Some Stub.store_down
  /\ (delete_chapter_embeddings Stub.env_store_down (lit "intro.md") Stub.st0).1
     = Return false
  /\ forall e,
      (delete_chapter_embeddings Stub.env_store_down (lit "intro.md") Stub.st0).1
      <> Raise e.
Proof. repeat split. intros e H. discriminate H. Qed.

(** C8 (amended): when the store's delete call fails with [e],
    [delete_chapter_embeddings] records the error in the log, leaves the
    collection as it was and returns [False]; when the call succeeds it
    removes the chapter's points and returns [True]. *)
Theorem delete_chapter_embeddings_returns_status env chapter_id st :
  (forall e,
      qdrant_delete env (calls st) chapter_id = Some e ->
      delete_chapter_embeddings env chapter_id st
      = (Return false,
         record_error (delete_error_message e)
           (record_call (QdrantDelete collection_name chapter_id) st)))
  /\ (qdrant_delete env (calls st) chapter_id = None ->
      delete_chapter_embeddings env chapter_id st
      = (Return true,
         set_points (delete_matching chapter_id)
           (record_call (QdrantDelete collection_name chapter_id) st))).
Proof.
  split; [intros e H|intros H];
    unfold delete_chapter_embeddings, try_except, bind, ret, logger_error;
    rewrite H; reflexivity.
Qed.

Lemma delete_chapter_embeddings_returns_status_witness :
  delete_chapter_embeddings Stub.env_store_down (lit "intro.md") Stub.st0
  = (Return false,
     record_error (delete_error_message Stub.store_down)
       (record_call (QdrantDelete collection_name (lit "intro.md")) Stub.st0))
  /\ (delete_chapter_embeddings Stub.env_ok (lit "intro.md") Stub.st0).1
     = Return true.
Proof.
  split.
  - apply (proj1 (delete_chapter_embeddings_returns_status
                    Stub.env_store_down (lit "intro.md") Stub.st0)).
    reflexivity.
  - rewrite (proj2 (delete_chapter_embeddings_returns_status
                      Stub.env_ok (lit "intro.md") Stub.st0) eq_refl).
    reflexivity.
Defined.

End Deletion.

(* ===================================================================== *)
(** ** Exercise suggestions *)
(* ===================================================================== *)

Section Exercises.
Import PersonalizationService.





End Exercises.

(* ===================================================================== *)
(** ** Indexing a document: [embed_content] *)
(* ===================================================================== *)

Section Indexing.
Import EmbeddingService.

(** Everything one pass of the [try] body does. *)
Lemma embed_chunk_spec env metadata total idx chunk st r st' :
  embed_chunk env metadata total idx chunk st = (r, st') ->
  errors st' = errors st /\ cache st' = cache st
  /\ ((exists e, r = Raise e /\ points st' = points st
                 /\ calls st' = calls st ++ [EmbeddingsCreate embedding_model chunk])
      \/ (exists p cid,
             metadata !! lit "chapter_id" = Some cid
             /\ content_id cid idx = Return (point_id p)
             /\ payload_chapter_id (point_payload p) = cid
             /\ payload_chunk_index (point_payload p) = idx
             /\ payload_text (point_payload p) = chunk
             /\ calls st' = calls st ++ [EmbeddingsCreate embedding_model chunk;
                                         QdrantUpsert collection_name [p]]
             /\ ((exists e, r = Raise e /\ points st' = points st)
                 \/ (r = Return tt
                     /\ points st' = <[point_id p := p]> (points st))))).
Proof.
  unfold embed_chunk, bind, getitem, lift, ret, raise.
  destruct (embeddings_create env (calls st) chunk) as [v|e]; cbn -[lit];
    [|intros [= <- <-]; cbn; eauto 10].
  destruct (metadata !! lit "chapter_id") as [cid|]; cbn -[lit];
    [|intros [= <- <-]; cbn; eauto 10].
  destruct (content_id cid idx) as [cid_hash|e] eqn:Hid; cbn -[lit];
    [|intros [= <- <-]; cbn; eauto 10].
  destruct (metadata !! lit "chapter_title") as [title|]; cbn -[lit];
    [|intros [= <- <-]; cbn; eauto 10].
  match goal with |- context [qdrant_upsert env ?h [?p]] =>
    destruct (qdrant_upsert env h [p]) as [e|]; intros [= <- <-]; cbn -[lit];
    (split; [reflexivity|]); (split; [reflexivity|]); right; exists p, cid
  end.
  - cbn -[lit]. rewrite <- app_assoc. cbn -[lit]. eauto 12.
  - cbn -[lit]. rewrite <- app_assoc. cbn -[lit]. repeat split; eauto.
Qed.

(** The loop, seen through the history and the log. *)
Lemma embed_chunks_spec env metadata total chunks :
  forall idx st r st',
    embed_chunks env metadata total idx chunks st = (r, st') ->
    exists new,
      calls st' = calls st ++ new
      /\ match r with
         | Return _ =>
             errors st' = errors st
             /\ embedding_inputs new = chunks
             /\ (payload_chunk_index ∘ point_payload) <$> upserted new
                = seq idx (length chunks)
         | Raise e =>
             exists k,
               (k < length chunks)%nat
               /\ errors st' = errors st ++ [embed_error_message (idx + k) e]
               /\ embedding_inputs new = take (S k) chunks
               /\ Forall (fun p => (payload_chunk_index (point_payload p) <= idx + k)%nat)
                         (upserted new)
               /\ exists chunk_k st_k,
                   chunks !! k = Some chunk_k
                   /\ (embed_chunk env metadata total (idx + k) chunk_k st_k).1 = Raise e
         end.
Proof.
  induction chunks as [|chunk rest IH]; intros idx st r st' Hrun.
  - cbn in Hrun. injection Hrun as <- <-. exists []. rewrite app_nil_r. auto.
  - cbn [embed_chunks] in Hrun. unfold bind at 1, try_except in Hrun.
    destruct (embed_chunk env metadata total idx chunk st) as [[[]|e] st1] eqn:Hstep.
    + (* chunk embedded and stored: go on with the rest *)
      apply embed_chunk_spec in Hstep as (Herr & _ & Hcases).
      destruct Hcases as [(e & He & _)|(p & cid & _ & _ & _ & Hidx & _ & Hcalls & Hres)];
        [discriminate|].
      apply IH in Hrun as (new & Hnew & Hr).
      exists ([EmbeddingsCreate embedding_model chunk;
               QdrantUpsert collection_name [p]] ++ new).
      split; [rewrite Hnew, Hcalls, <- app_assoc; reflexivity|].
      destruct r as [[]|e].
      * destruct Hr as (He & Hin & Hup). repeat split.
        -- congruence.
        -- cbn. f_equal. exact Hin.
        -- cbn. rewrite Hidx. f_equal. exact Hup.
      * destruct Hr as (k & Hk & He & Hin & Hup & chunk_k & st_k & Hlk & Hraise).
        exists (S k).
        replace (idx + S k)%nat with (S idx + k)%nat by lia.
        split; [cbn; lia|]. split; [rewrite He, Herr; reflexivity|].
        split; [cbn; f_equal; exact Hin|]. split.
        -- cbn. constructor; [cbn in Hidx; lia|].
           eapply Forall_impl; [exact Hup|]. cbn. intros; lia.
        -- exists chunk_k, st_k. split; [exact Hlk|exact Hraise].
    + (* the chunk failed: log, re-raise, stop *)
      assert (Hraise : (embed_chunk env metadata total (idx + 0) chunk st).1 = Raise e)
        by (rewrite Nat.add_0_r, Hstep; reflexivity).
      apply embed_chunk_spec in Hstep as (Herr & _ & Hcases).
      unfold bind, logger_error, raise in Hrun. injection Hrun as <- <-.
      destruct Hcases as [(e' & He & _ & Hcalls)|(p & cid & _ & _ & _ & Hidx & _ & Hcalls & _)].
      * exists [EmbeddingsCreate embedding_model chunk]. split; [exact Hcalls|].
        exists 0%nat. rewrite Nat.add_0_r in *.
        split; [cbn; lia|]. split; [cbn -[lit]; rewrite Herr; reflexivity|].
        split; [reflexivity|]. split; [constructor|].
        exists chunk, st. split; [reflexivity|exact Hraise].
      * exists [EmbeddingsCreate embedding_model chunk; QdrantUpsert collection_name [p]].
        split; [exact Hcalls|].
        exists 0%nat. rewrite Nat.add_0_r in *.
        split; [cbn; lia|]. split; [cbn -[lit]; rewrite Herr; reflexivity|].
        split; [reflexivity|]. split; [repeat constructor; lia|].
        exists chunk, st. split; [reflexivity|exact Hraise].
Qed.

(** C5, as stated, fails: the exception that leaves [embed_content] is
    the collaborator's own, re-raised as it is.  A failure at chunk 0 and
    a failure at chunk 1 raise the same exception; only the log record
    names the index. *)
Lemma embed_content_raised_error_has_no_index :
  let run0 := embed_content Stub.env_provider_down Stub.long_content
                            Stub.metadata Stub.st0 in
  let run1 := embed_content Stub.env_provider_fails_later Stub.long_content
                            Stub.metadata Stub.st0 in
  length (chunk_text_default Stub.long_content) = 2%nat
  /\ run0.1 = Raise Stub.provider_down
  /\ errors run0.2 = [lit "Error embedding chunk 0: rate limit exceeded"]
  /\ run1.1 = Raise Stub.provider_down
  /\ errors run1.2 = [lit "Error embedding chunk 1: rate limit exceeded"].
Proof. vm_compute. repeat split. Qed.

(** A chunk fails exactly when the body of the [try] raises. *)
Lemma embed_chunk_raises_iff env metadata total idx chunk st e :
  chunk_failure env metadata total idx chunk st e
  <-> (embed_chunk env metadata total idx chunk st).1 = Raise e.
Proof.
  unfold embed_chunk, bind, getitem, lift, ret, raise. split.
  - intros [e' He|v Hv Hc|v cid e' Hv Hc Hid|v cid id Hv Hc Hid Ht
            |v cid id title e' Hv Hc Hid Ht Hup].
    + rewrite He. reflexivity.
    + rewrite Hv. cbn -[lit]. rewrite Hc. reflexivity.
    + rewrite Hv. cbn -[lit]. rewrite Hc. cbn -[lit]. rewrite Hid. reflexivity.
    + rewrite Hv. cbn -[lit]. rewrite Hc. cbn -[lit]. rewrite Hid. cbn -[lit].
      rewrite Ht. reflexivity.
    + rewrite Hv. cbn -[lit]. rewrite Hc. cbn -[lit]. rewrite Hid. cbn -[lit].
      rewrite Ht. cbn -[lit]. unfold chunk_point in Hup. rewrite Hup. reflexivity.
  - destruct (embeddings_create env (calls st) chunk) as [v|e'] eqn:Hv; cbn -[lit];
      [|intros [= <-]; apply embedding_failed; exact Hv].
    destruct (metadata !! lit "chapter_id") as [cid|] eqn:Hc; cbn -[lit];
      [|intros [= <-]; eapply chapter_id_missing; eauto].
    destruct (content_id cid idx) as [id|e'] eqn:Hid; cbn -[lit];
      [|intros [= <-]; eapply chapter_id_not_encodable; eauto].
    destruct (metadata !! lit "chapter_title") as [title|] eqn:Ht; cbn -[lit];
      [|intros [= <-]; eapply chapter_title_missing; eauto].
    match goal with |- context [qdrant_upsert env ?h [?p]] =>
      destruct (qdrant_upsert env h [p]) as [e'|] eqn:Hup end;
      cbn -[lit]; [|discriminate].
    intros [= <-]. eapply upsert_failed; eauto.
Qed.

(** The loop stops at the first chunk whose body raises. *)
Lemma embed_chunks_stops env metadata total chunks :
  forall idx i chunk_i st st_i e,
    chunks !! i = Some chunk_i ->
    embed_chunks env metadata total idx (take i chunks) st = (Return tt, st_i) ->
    (embed_chunk env metadata total (idx + i) chunk_i st_i).1 = Raise e ->
    embed_chunks env metadata total idx chunks st
    = (Raise e,
       record_error (embed_error_message (idx + i) e)
                    (embed_chunk env metadata total (idx + i) chunk_i st_i).2).
Proof.
  induction chunks as [|chunk rest IH]; intros idx i chunk_i st st_i e Hi Hpre Hfail;
    [discriminate|].
  destruct i as [|i].
  - cbn in Hi, Hpre. injection Hi as ->. injection Hpre as <-.
    rewrite Nat.add_0_r in *. cbn [embed_chunks]. unfold bind at 1, try_except.
    destruct (embed_chunk env metadata total idx chunk_i st) as [r st1].
    cbn in Hfail. subst r. reflexivity.
  - cbn [lookup list_lookup] in Hi. cbn [take embed_chunks] in Hpre |- *.
    unfold bind at 1, try_except in Hpre. unfold bind at 1, try_except.
    destruct (embed_chunk env metadata total idx chunk st) as [[[]|e1] st1].
    + replace (idx + S i)%nat with (S idx + i)%nat in * by lia.
      apply (IH (S idx) i chunk_i st1 st_i e Hi Hpre Hfail).
    + unfold bind, logger_error, raise in Hpre. discriminate.
Qed.

(** A loop that raised stopped at a chunk whose body raised, after the
    chunks before it had gone through. *)
Lemma embed_chunks_raised env metadata total chunks :
  forall idx st e st',
    embed_chunks env metadata total idx chunks st = (Raise e, st') ->
    exists i chunk_i st_i,
      chunks !! i = Some chunk_i
      /\ embed_chunks env metadata total idx (take i chunks) st = (Return tt, st_i)
      /\ (embed_chunk env metadata total (idx + i) chunk_i st_i).1 = Raise e.
Proof.
  induction chunks as [|chunk rest IH]; intros idx st e st' Hrun; [discriminate|].
  cbn [embed_chunks] in Hrun. unfold bind at 1, try_except in Hrun.
  destruct (embed_chunk env metadata total idx chunk st) as [[[]|e1] st1] eqn:Hstep.
  - apply IH in Hrun as (i & chunk_i & st_i & Hi & Hpre & Hfail).
    exists (S i), chunk_i, st_i. split; [exact Hi|]. split.
    + cbn [take embed_chunks]. unfold bind at 1, try_except. rewrite Hstep. exact Hpre.
    + replace (idx + S i)%nat with (S idx + i)%nat by lia. exact Hfail.
  - unfold bind, logger_error, raise in Hrun. injection Hrun as <- <-.
    exists 0%nat, chunk, st. rewrite Nat.add_0_r, Hstep. auto.
Qed.

(** C5 (amended).  First part: if the chunks before index [i] go through
    and chunk [i] fails with [e] - its embedding request fails, the store
    refuses its point, or the point cannot be built - then
    [embed_content] raises [e] itself, unchanged; it has logged one error
    record, which names [i], stored nothing for chunk [i], asked for the
    embeddings of chunks [0..i] only and sent no point of index above [i]
    to the store.  Second part: every run either returns the number of
    chunks, having embedded each of them in order and logged no error, or
    raises because of such a failing chunk. *)
Theorem embed_content_stops_at_failing_chunk env content metadata st :
  let chunks := chunk_text_default content in
  let total := length chunks in
  (forall i chunk_i st_i e,
      chunks !! i = Some chunk_i ->
      embed_chunks env metadata total 0 (take i chunks) st = (Return tt, st_i) ->
      chunk_failure env metadata total i chunk_i st_i e ->
      exists st' new,
        embed_content env content metadata st = (Raise e, st')
        /\ errors st' = errors st ++ [embed_error_message i e]
        /\ points st' = points st_i
        /\ calls st' = calls st ++ new
        /\ embedding_inputs new = take (S i) chunks
        /\ Forall (fun p => (payload_chunk_index (point_payload p) <= i)%nat)
                  (upserted new))
  /\ (forall r st',
      embed_content env content metadata st = (r, st') ->
      match r with
      | Return n =>
          n = len chunks
          /\ errors st' = errors st
          /\ exists new,
              calls st' = calls st ++ new
              /\ embedding_inputs new = chunks
              /\ (payload_chunk_index ∘ point_payload) <$> upserted new = seq 0 total
      | Raise e =>
          exists i chunk_i st_i,
            chunks !! i = Some chunk_i
            /\ embed_chunks env metadata total 0 (take i chunks) st = (Return tt, st_i)
            /\ chunk_failure env metadata total i chunk_i st_i e
      end).
Proof.
  intros chunks total. split.
  - intros i chunk_i st_i e Hi Hpre Hfail.
    apply embed_chunk_raises_iff in Hfail.
    pose proof (embed_chunks_stops env metadata total chunks 0 i chunk_i st st_i e
                  Hi Hpre Hfail) as Hrun.
    cbn [Nat.add] in Hrun.
    destruct (embed_chunk env metadata total i chunk_i st_i) as [r st_f] eqn:Hstep.
    cbn [fst snd] in Hfail, Hrun. subst r.
    apply embed_chunks_spec in Hpre as (new1 & Hcalls1 & Herr1 & Hin1 & Hup1).
    apply embed_chunk_spec in Hstep as (Herr & _ & Hcases).
    assert (Hnew : exists new2,
      calls st_f = calls st_i ++ new2
      /\ embedding_inputs new2 = [chunk_i]
      /\ Forall (fun p => (payload_chunk_index (point_payload p) <= i)%nat)
                (upserted new2)
      /\ points st_f = points st_i).
    { destruct Hcases as [(e' & _ & Hp & Hc)|(p & cid & _ & _ & _ & Hidx & _ & Hc & Hres)].
      - exists [EmbeddingsCreate embedding_model chunk_i]. cbn. auto.
      - exists [EmbeddingsCreate embedding_model chunk_i; QdrantUpsert collection_name [p]].
        split; [exact Hc|]. split; [reflexivity|]. split.
        + cbn. repeat constructor. lia.
        + destruct Hres as [(e' & _ & Hp)|[Hr _]]; [exact Hp|discriminate]. }
    destruct Hnew as (new2 & Hcalls2 & Hin2 & Hup2 & Hpts).
    exists (record_error (embed_error_message i e) st_f), (new1 ++ new2).
    split.
    { unfold embed_content, bind. fold chunks. fold total. rewrite Hrun. reflexivity. }
    split; [cbn [errors record_error]; rewrite Herr, Herr1; reflexivity|].
    split; [exact Hpts|].
    split; [cbn [calls record_error]; rewrite Hcalls2, Hcalls1, app_assoc; reflexivity|].
    split.
    + unfold embedding_inputs in *. rewrite flat_map_app, Hin1, Hin2.
      symmetry. apply take_S_r. exact Hi.
    + unfold upserted in *. rewrite flat_map_app. apply Forall_app. split; [|exact Hup2].
      apply Forall_forall. intros p Hp.
      assert (Hmem : (payload_chunk_index ∘ point_payload) p
                     ∈ (payload_chunk_index ∘ point_payload)
                         <$> flat_map (fun c => match c with
                                                | QdrantUpsert _ ps => ps
                                                | _ => []
                                                end) new1).
      { apply list_elem_of_fmap. exists p. split; [reflexivity|].
        exact Hp. }
      rewrite Hup1 in Hmem. apply elem_of_seq in Hmem.
      rewrite length_take in Hmem. unfold compose in Hmem. lia.
  - intros r st' Hrun. unfold embed_content, bind in Hrun.
    fold chunks in Hrun. fold total in Hrun.
    destruct (embed_chunks env metadata total 0 chunks st) as [[[]|e] st1] eqn:Hloop;
      unfold ret in Hrun; injection Hrun as <- <-.
    + apply embed_chunks_spec in Hloop as (new & Hcalls & Herr & Hin & Hup).
      split; [reflexivity|]. split; [exact Herr|]. eauto.
    + apply embed_chunks_raised in Hloop as (i & chunk_i & st_i & Hi & Hpre & Hfail).
      exists i, chunk_i, st_i. split; [exact Hi|]. split; [exact Hpre|].
      apply embed_chunk_raises_iff. exact Hfail.
Qed.

Lemma embed_content_stops_at_failing_chunk_witness :
  let env := Stub.env_store_fails_later in
  let chunks := chunk_text_default Stub.long_content in
  let st_1 := (embed_chunks env Stub.metadata 2 0 (take 1 chunks) Stub.st0).2 in
  exists chunk_1 st' new,
    chunks !! 1%nat = Some chunk_1
    /\ size (points st_1) = 1%nat
    /\ embed_content env Stub.long_content Stub.metadata Stub.st0
       = (Raise Stub.store_down, st')
    /\ errors st' = errors Stub.st0 ++ [embed_error_message 1 Stub.store_down]
    /\ points st' = points st_1
    /\ calls st' = calls Stub.st0 ++ new
    /\ embedding_inputs new = take 2 chunks
    /\ Forall (fun p => (payload_chunk_index (point_payload p) <= 1)%nat)
              (upserted new).
Proof.
  intros env chunks st_1.
  assert (Hi : chunks !! 1%nat = Some (repeat 97%N 700)) by (vm_compute; reflexivity).
  assert (Hpre : embed_chunks env Stub.metadata (length chunks) 0 (take 1 chunks) Stub.st0
                 = (Return tt, st_1)) by (vm_compute; reflexivity).
  assert (Hid : content_id (lit "intro.md") 1
                = Return (lit "eea9062a092c96283a7c3105b7f62070")).
  { vm_compute. reflexivity. }
  assert (Hfail : chunk_failure env Stub.metadata (length chunks) 1 (repeat 97%N 700)
                                st_1 Stub.store_down).
  { eapply (upsert_failed env Stub.metadata (length chunks) 1 (repeat 97%N 700) st_1
              [1; 2; 3] (lit "intro.md") _ (lit "Intro"));
      [reflexivity|vm_compute; reflexivity|exact Hid|vm_compute; reflexivity
      |vm_compute; reflexivity]. }
  destruct (proj1 (embed_content_stops_at_failing_chunk env Stub.long_content
                     Stub.metadata Stub.st0)
                  1%nat (repeat 97%N 700) st_1 Stub.store_down Hi Hpre Hfail)
    as (st' & new & H).
  exists (repeat 97%N 700), st', new.
  split; [exact Hi|]. split; [vm_compute; reflexivity|]. exact H.
Defined.

End Indexing.

(* ===================================================================== *)
(** ** Re-indexing a document *)
(* ===================================================================== *)

Section Reindexing.
Import EmbeddingService.

Lemma owned_insert (cid : str) (pts : gmap str PointStruct) (id id' : str)
      (p : PointStruct) :
  payload_chapter_id (point_payload p) = cid ->
  owned cid pts id -> owned cid (<[id' := p]> pts) id.
Proof.
  intros Hp (p0 & Hl & H0). unfold owned.
  destruct (decide (id' = id)) as [->|Hne].
  - exists p. rewrite lookup_insert_eq. auto.
  - exists p0. rewrite lookup_insert_ne by exact Hne. auto.
Qed.

(** Writing a point of the chapter over a point of the chapter changes
    neither the ids in the collection nor the chapter's point count. *)
Lemma overwrite_owned (cid : str) (pts : gmap str PointStruct) (id : str)
      (p : PointStruct) :
  payload_chapter_id (point_payload p) = cid ->
  owned cid pts id ->
  dom (<[id := p]> pts) = dom pts
  /\ chapter_count cid (<[id := p]> pts) = chapter_count cid pts.
Proof.
  intros Hp (p0 & Hl & H0). split.
  - rewrite dom_insert_L. apply subseteq_union_1_L, singleton_subseteq_l.
    eapply elem_of_dom_2, Hl.
  - unfold chapter_count, chapter_points.
    rewrite map_filter_insert_True by exact Hp.
    apply map_size_insert_Some. exists p0.
    apply map_lookup_filter_Some. auto.
Qed.

Section WithChapter.
Variables (env : Env) (metadata : gmap str str) (total : nat) (cid : str).
Hypothesis Hcid : metadata !! lit "chapter_id" = Some cid.

(** What one pass does to the collection: nothing, or one point of the
    chapter written under the id derived from (chapter id, index). *)
Lemma embed_chunk_points idx chunk st r st' :
  embed_chunk env metadata total idx chunk st = (r, st') ->
  exists new,
    calls st' = calls st ++ new
    /\ Forall (fun p => content_id cid (payload_chunk_index (point_payload p))
                        = Return (point_id p)) (upserted new)
    /\ (r = Return tt ->
        exists p, content_id cid idx = Return (point_id p)
                  /\ payload_chapter_id (point_payload p) = cid
                  /\ points st' = <[point_id p := p]> (points st))
    /\ (forall e, r = Raise e -> points st' = points st).
Proof.
  intros H. apply embed_chunk_spec in H as (_ & _ & Hcases).
  destruct Hcases as [(e & -> & Hp & Hc)
                     |(p & cid' & Hm & Hid & Hch & Hidx & _ & Hc & Hres)].
  - eexists. split; [exact Hc|]. split; [constructor|].
    split; [discriminate|]. auto.
  - assert (cid' = cid) as -> by congruence.
    eexists. split; [exact Hc|]. split.
    { cbn. constructor; [|constructor]. rewrite Hidx. exact Hid. }
    destruct Hres as [(e & -> & Hp)|(-> & Hp)].
    + split; [discriminate|]. auto.
    + split; [intros _; exists p; auto|].
      intros e He. discriminate He.
Qed.

(** A successful run leaves every id of the run in the collection, on a
    point of the chapter, and keeps what the chapter owned before. *)
Lemma embed_chunks_owns chunks :
  forall idx st st',
    embed_chunks env metadata total idx chunks st = (Return tt, st') ->
    (forall id, owned cid (points st) id -> owned cid (points st') id)
    /\ (forall k id, (k < length chunks)%nat ->
                     content_id cid (idx + k) = Return id ->
                     owned cid (points st') id).
Proof.
  induction chunks as [|chunk rest IH]; intros idx st st' Hrun.
  - cbn in Hrun. injection Hrun as <-. split; [auto|]. cbn. intros; lia.
  - cbn [embed_chunks] in Hrun. unfold bind at 1, try_except in Hrun.
    destruct (embed_chunk env metadata total idx chunk st) as [[[]|e] st1] eqn:Hstep.
    2:{ unfold bind, logger_error, raise in Hrun. discriminate Hrun. }
    apply embed_chunk_points in Hstep as (new & _ & _ & Hpts & _).
    destruct (Hpts eq_refl) as (p & Hidp & Hch & Hst1).
    apply IH in Hrun as (Hkeep & Hown).
    split.
    { intros id Ho. apply Hkeep. rewrite Hst1. apply owned_insert; assumption. }
    intros [|k] id Hk Hid.
    + apply Hkeep. rewrite Nat.add_0_r in Hid.
      assert (id = point_id p) as -> by congruence.
      exists p. rewrite Hst1, lookup_insert_eq. auto.
    + apply (Hown k). { cbn in Hk. lia. }
      replace (S idx + k)%nat with (idx + S k)%nat by lia. exact Hid.
Qed.

(** A run over ids that the chapter already owns only overwrites. *)
Lemma embed_chunks_overwrites chunks :
  forall idx st r st',
    (forall k id, (k < length chunks)%nat ->
                  content_id cid (idx + k) = Return id ->
                  owned cid (points st) id) ->
    embed_chunks env metadata total idx chunks st = (r, st') ->
    dom (points st') = dom (points st)
    /\ chapter_count cid (points st') = chapter_count cid (points st)
    /\ exists new,
        calls st' = calls st ++ new
        /\ Forall (fun p => content_id cid (payload_chunk_index (point_payload p))
                            = Return (point_id p)) (upserted new).
Proof.
  induction chunks as [|chunk rest IH]; intros idx st r st' Hown Hrun.
  - cbn in Hrun. injection Hrun as <- <-.
    repeat split. exists []. rewrite app_nil_r. split; [reflexivity|constructor].
  - cbn [embed_chunks] in Hrun. unfold bind at 1, try_except in Hrun.
    destruct (embed_chunk env metadata total idx chunk st) as [[[]|e] st1] eqn:Hstep;
      apply embed_chunk_points in Hstep as (new1 & Hc1 & Hids1 & Hok & Hfail).
    + destruct (Hok eq_refl) as (p & Hidp & Hch & Hst1).
      assert (Ho : owned cid (points st) (point_id p)).
      { apply (Hown 0%nat); [cbn; lia|]. rewrite Nat.add_0_r. exact Hidp. }
      destruct (overwrite_owned cid (points st) (point_id p) p Hch Ho) as [Hdom Hcnt].
      apply IH in Hrun as (Hdom' & Hcnt' & new2 & Hc2 & Hids2).
      * rewrite Hdom', Hcnt', Hst1. split; [exact Hdom|]. split; [exact Hcnt|].
        exists (new1 ++ new2). split; [rewrite Hc2, Hc1, app_assoc; reflexivity|].
        unfold upserted in *. rewrite flat_map_app. apply Forall_app. auto.
      * intros k id Hk Hid. rewrite Hst1. apply owned_insert; [exact Hch|].
        apply (Hown (S k)); [cbn; lia|].
        replace (idx + S k)%nat with (S idx + k)%nat by lia. exact Hid.
    + unfold bind, logger_error, raise in Hrun. injection Hrun as <- <-.
      cbn [points record_error calls]. rewrite (Hfail e eq_refl).
      repeat split. exists new1. auto.
Qed.

End WithChapter.

(** C4 (amended), the service path: every point that [embed_content]
    sends to the store has the id [md5(f"{chapter_id}_{chunk_index}")], a
    function of the chapter id and the chunk index alone; so once a
    document has been indexed successfully, indexing the same content
    under the same chapter id again - whatever the collaborators answer
    the second time - leaves the collection with the same ids, the same
    number of points, and the same number of points of that chapter. *)
Theorem embed_content_reindex_overwrites
        env1 env2 content metadata cid st0 n st1 r st2 :
  metadata !! lit "chapter_id" = Some cid ->
  embed_content env1 content metadata st0 = (Return n, st1) ->
  embed_content env2 content metadata st1 = (r, st2) ->
  (exists new,
      calls st2 = calls st1 ++ new
      /\ Forall (fun p => content_id cid (payload_chunk_index (point_payload p))
                          = Return (point_id p)) (upserted new))
  /\ dom (points st2) = dom (points st1)
  /\ size (points st2) = size (points st1)
  /\ chapter_count cid (points st2) = chapter_count cid (points st1).
Proof.
  intros Hcid Hrun1 Hrun2.
  unfold embed_content, bind in Hrun1, Hrun2.
  set (chunks := chunk_text_default content) in *.
  destruct (embed_chunks env1 metadata (length chunks) 0 chunks st0)
    as [[[]|e1] st1'] eqn:Hloop1; [|discriminate Hrun1].
  unfold ret in Hrun1. injection Hrun1 as _ <-.
  apply (embed_chunks_owns env1 metadata (length chunks) cid Hcid) in Hloop1
    as (_ & Hown).
  destruct (embed_chunks env2 metadata (length chunks) 0 chunks st1')
    as [r2 st2'] eqn:Hloop2.
  assert (st2 = st2') as ->.
  { destruct r2; unfold ret in Hrun2; congruence. }
  apply (embed_chunks_overwrites env2 metadata (length chunks) cid Hcid) in Hloop2
    as (Hdom & Hcnt & Hnew); [|exact Hown].
  split; [exact Hnew|]. split; [exact Hdom|]. split; [|exact Hcnt].
  rewrite <- !size_dom, Hdom. reflexivity.
Qed.

Lemma embed_content_reindex_overwrites_witness :
  let run1 := embed_content Stub.env_ok Stub.long_content Stub.metadata Stub.st0 in
  let run2 := embed_content Stub.env_store_down Stub.long_content Stub.metadata run1.2 in
  run1.1 = Return 2
  /\ size (points run2.2) = size (points run1.2)
  /\ chapter_count (lit "intro.md") (points run2.2)
     = chapter_count (lit "intro.md") (points run1.2).
Proof.
  intros run1 run2.
  assert (H1 : run1 = (Return 2, run1.2)) by (vm_compute; reflexivity).
  split; [rewrite H1; reflexivity|].
  assert (H2 : run2 = (Raise Stub.store_down, run2.2)) by (vm_compute; reflexivity).
  exact (proj2 (proj2 (embed_content_reindex_overwrites
           Stub.env_ok Stub.env_store_down Stub.long_content Stub.metadata
           (lit "intro.md") Stub.st0 2 run1.2 (Raise Stub.store_down) run2.2
           eq_refl H1 H2))).
Defined.

(** C4, as stated, fails on the batch script: [embed_documents] gives
    every point a fresh [uuid4].  The same chunk of the same file gets a
    different id under different draws, and uploading it a second time
    into the same collection adds a second point; the script avoids
    duplicates only because it deletes and recreates its collection
    before it uploads. *)
Lemma embed_documents_ids_are_drawn_at_random :
  let run_a := EmbedScript.embed_documents (Stub.script_env "uuid-a-")
                 Stub.one_chunk Stub.script_st0 in
  let run_b := EmbedScript.embed_documents (Stub.script_env "uuid-b-")
                 Stub.one_chunk Stub.script_st0 in
  let again := EmbedScript.upload_from (Stub.script_env "uuid-a-") 1 0
                 Stub.one_chunk [] run_a.2 in
  let rerun := EmbedScript.embed_documents (Stub.script_env "uuid-a-")
                 Stub.one_chunk run_a.2 in
  (elements ∘ dom <$> EmbedScript.collection run_a.2) = Some [lit "uuid-a-0"]
  /\ (elements ∘ dom <$> EmbedScript.collection run_b.2) = Some [lit "uuid-b-0"]
  /\ (size <$> EmbedScript.collection again) = Some 2%nat
  /\ (elements ∘ dom <$> EmbedScript.collection rerun.2) = Some [lit "uuid-a-1"].
Proof. vm_compute. repeat split. Qed.

End Reindexing.

(* ===================================================================== *)
(** ** Translation cache *)
(* ===================================================================== *)

Section TranslationCacheProofs.
Import TranslationService.

Lemma chat_calls_app (a b : list Call) :
  chat_calls (a ++ b) = chat_calls a ++ chat_calls b.
Proof. apply flat_map_app. Qed.

Lemma find_app_miss {A} (f : A -> bool) (l : list A) (x : A) :
  List.find f l = None ->
  List.find f (l ++ [x]) = if f x then Some x else None.
Proof.
  induction l as [|y l IH]; cbn; [reflexivity|].
  destruct (f y); [discriminate|exact IH].
Qed.

(** After a call that returned [text], the row that a lookup of the key
    finds first holds [text]. *)
Lemma translate_content_stores env content target_lang source_lang st text st' :
  translate_content env content target_lang source_lang st = (Return text, st') ->
  exists h row,
    _get_content_hash content target_lang = Return h
    /\ List.find (fun r => bool_decide (content_hash r = h)) (cache st') = Some row
    /\ translated_content row = text.
Proof.
  unfold translate_content, bind, lift, query_first, try_except.
  destruct (_get_content_hash content target_lang) as [h|e]; [|discriminate].
  cbn -[lit]. destruct (List.find _ (cache st)) as [row|] eqn:Hfind.
  - unfold ret. intros [= <- <-]. exists h, row. auto.
  - cbn -[lit translate_request].
    destruct (chat_create env _ _) as [[translated|]|e]; cbn -[lit translate_request].
    + destruct (existsb _ (cache st)); [discriminate|].
      destruct (db_commit env _ _); [discriminate|].
      intros [= <- <-]. cbn -[lit translate_request].
      eexists h, _. split; [reflexivity|].
      rewrite find_app_miss by exact Hfind. cbn.
      rewrite bool_decide_eq_true_2 by reflexivity. auto.
    + discriminate.
    + discriminate.
Qed.

(** C2: a call of [translate_content] that returns [text] leaves, as the
    first row under the key of [(content, target_lang)], a row that holds
    [text]: the row found on a hit, or, on a miss, the row it appended
    with the text the provider sent.  A second call on the same content
    and target language - whatever the source language passed and
    whatever the collaborators would answer - returns the text of that
    stored row after the cache lookup alone: the table is unchanged and no
    translation request is issued. *)
Theorem translate_content_second_call_cached
        env1 env2 content target_lang source_lang1 source_lang2 st text st1 :
  translate_content env1 content target_lang source_lang1 st = (Return text, st1) ->
  exists h row,
    _get_content_hash content target_lang = Return h
    /\ List.find (fun r => bool_decide (content_hash r = h)) (cache st1) = Some row
    /\ translated_content row = text
    /\ (List.find (fun r => bool_decide (content_hash r = h)) (cache st) = None ->
        chat_create env1 (calls st ++ [DbQuery h]) (translate_request content target_lang)
        = Return (Some text)
        /\ row = {| content_hash := h; source_lang := source_lang1;
                    target_lang := target_lang; translated_content := text |}
        /\ cache st1 = cache st ++ [row])
    /\ translate_content env2 content target_lang source_lang2 st1
       = (Return (translated_content row), record_call (DbQuery h) st1)
    /\ cache (record_call (DbQuery h) st1) = cache st1
    /\ chat_calls (calls (record_call (DbQuery h) st1)) = chat_calls (calls st1).
Proof.
  intros H.
  assert (Hsecond : forall h row,
    _get_content_hash content target_lang = Return h ->
    List.find (fun r => bool_decide (content_hash r = h)) (cache st1) = Some row ->
    translate_content env2 content target_lang source_lang2 st1
    = (Return (translated_content row), record_call (DbQuery h) st1)
    /\ cache (record_call (DbQuery h) st1) = cache st1
    /\ chat_calls (calls (record_call (DbQuery h) st1)) = chat_calls (calls st1)).
  { intros h row Hh Hfind. split; [|split; [reflexivity|]].
    - unfold translate_content, bind, lift, query_first. rewrite Hh.
      cbn -[lit]. rewrite Hfind. reflexivity.
    - cbn. rewrite chat_calls_app. cbn. apply app_nil_r. }
  assert (Hfirst : exists h,
    _get_content_hash content target_lang = Return h
    /\ match List.find (fun r => bool_decide (content_hash r = h)) (cache st) with
       | Some row => translated_content row = text /\ cache st1 = cache st
       | None =>
           chat_create env1 (calls st ++ [DbQuery h])
                       (translate_request content target_lang)
           = Return (Some text)
           /\ cache st1
              = cache st ++ [{| content_hash := h; source_lang := source_lang1;
                                target_lang := target_lang;
                                translated_content := text |}]
       end).
  { revert H. unfold translate_content, bind, lift, query_first, try_except.
    destruct (_get_content_hash content target_lang) as [h|e]; [|discriminate].
    intros H. exists h. split; [reflexivity|]. revert H.
    cbn -[lit]. destruct (List.find _ (cache st)) as [row|].
    - unfold ret. intros [= <- <-]. auto.
    - cbn -[lit translate_request].
      destruct (chat_create env1 _ _) as [[translated|]|e];
        cbn -[lit translate_request]; [|discriminate|discriminate].
      destruct (existsb _ (cache st)); [discriminate|].
      destruct (db_commit env1 _ _); [discriminate|].
      intros [= <- <-]. auto. }
  destruct Hfirst as (h & Hh & Hfirst).
  destruct (List.find (fun r => bool_decide (content_hash r = h)) (cache st))
    as [row|] eqn:Hfind.
  - (* hit: the row was there *)
    destruct Hfirst as [Htext Hcache]. exists h, row.
    split; [exact Hh|]. split; [rewrite Hcache; exact Hfind|].
    split; [exact Htext|]. split; [intros Hmiss; rewrite Hfind in Hmiss; discriminate|].
    apply Hsecond; [exact Hh|rewrite Hcache; exact Hfind].
  - (* miss: the provider's text is appended under the key *)
    destruct Hfirst as [Hchat Hcache].
    set (row := {| content_hash := h; source_lang := source_lang1;
                   target_lang := target_lang; translated_content := text |}) in *.
    assert (Hfind1 : List.find (fun r => bool_decide (content_hash r = h)) (cache st1)
                     = Some row).
    { rewrite Hcache, find_app_miss by exact Hfind. cbn.
      rewrite bool_decide_eq_true_2 by reflexivity. reflexivity. }
    exists h, row. split; [exact Hh|]. split; [exact Hfind1|].
    split; [reflexivity|]. split; [auto|].
    apply Hsecond; [exact Hh|exact Hfind1].
Qed.

Lemma translate_content_second_call_cached_witness :
  let run1 := translate_content Stub.env_ok (lit "Robots move.") (lit "ur")
                                (lit "en") Stub.st0 in
  run1.1 = Return (lit "ok")
  /\ exists h row,
      _get_content_hash (lit "Robots move.") (lit "ur") = Return h
      /\ List.find (fun r => bool_decide (content_hash r = h)) (cache run1.2) = Some row
      /\ translated_content row = lit "ok"
      /\ (List.find (fun r => bool_decide (content_hash r = h)) (cache Stub.st0) = None ->
          chat_create Stub.env_ok (calls Stub.st0 ++ [DbQuery h])
                      (translate_request (lit "Robots move.") (lit "ur"))
          = Return (Some (lit "ok"))
          /\ row = {| content_hash := h; source_lang := lit "en";
                      target_lang := lit "ur"; translated_content := lit "ok" |}
          /\ cache run1.2 = cache Stub.st0 ++ [row])
      /\ translate_content Stub.env_provider_down (lit "Robots move.") (lit "ur")
                           (lit "en") run1.2
         = (Return (translated_content row), record_call (DbQuery h) run1.2)
      /\ cache (record_call (DbQuery h) run1.2) = cache run1.2
      /\ chat_calls (calls (record_call (DbQuery h) run1.2)) = chat_calls (calls run1.2).
Proof.
  intros run1.
  assert (H1 : run1 = (Return (lit "ok"), run1.2)) by (vm_compute; reflexivity).
  split; [rewrite H1; reflexivity|].
  exact (translate_content_second_call_cached Stub.env_ok Stub.env_provider_down
           (lit "Robots move.") (lit "ur") (lit "en") (lit "en")
           Stub.st0 (lit "ok") run1.2 H1).
Defined.

(** C10: the key and the translation request are computed from the
    content and the target language alone.  Provided the store treats the
    two candidate rows alike (they differ in [source_lang] only), two runs
    that differ in [source_lang] only return the same result, issue the
    same translation requests and log the same errors; the tables they
    leave agree on every column but [source_lang], which is written on the
    row inserted by the run, if any. *)
Theorem translate_content_ignores_source_lang
        env content target_lang source_lang1 source_lang2 st :
  (forall history h text,
      db_commit env history
        {| content_hash := h; source_lang := source_lang1;
           target_lang := target_lang; translated_content := text |}
      = db_commit env history
        {| content_hash := h; source_lang := source_lang2;
           target_lang := target_lang; translated_content := text |}) ->
  let run1 := translate_content env content target_lang source_lang1 st in
  let run2 := translate_content env content target_lang source_lang2 st in
  run1.1 = run2.1
  /\ chat_calls (calls run1.2) = chat_calls (calls run2.2)
  /\ errors run1.2 = errors run2.2
  /\ without_source_lang <$> cache run1.2 = without_source_lang <$> cache run2.2
  /\ (cache run1.2 = cache st
      \/ exists row, cache run1.2 = cache st ++ [row]
                     /\ source_lang row = source_lang1).
Proof.
  intros Hstore run1 run2. subst run1 run2.
  unfold translate_content, bind, lift, query_first, try_except.
  destruct (_get_content_hash content target_lang) as [h|e];
    [|cbn; repeat split; auto].
  cbn -[lit chat_calls]. destruct (List.find _ (cache st)) as [row|];
    [cbn -[chat_calls]; repeat split; auto|].
  cbn -[lit translate_request chat_calls].
  destruct (chat_create env _ _) as [[translated|]|e];
    cbn -[lit translate_request chat_calls]; [|repeat split; auto..].
  destruct (existsb _ (cache st)).
  { cbn -[lit translate_request chat_calls].
    rewrite !chat_calls_app. repeat split; auto. }
  rewrite Hstore.
  destruct (db_commit env _ _); cbn -[lit translate_request chat_calls].
  - rewrite !chat_calls_app. repeat split; auto.
  - rewrite !chat_calls_app. repeat split.
    + rewrite !fmap_app. reflexivity.
    + right. eexists. split; reflexivity.
Qed.

Lemma translate_content_ignores_source_lang_witness :
  (translate_content Stub.env_ok (lit "Robots move.") (lit "ur") (lit "en") Stub.st0).1
  = (translate_content Stub.env_ok (lit "Robots move.") (lit "ur") (lit "fr") Stub.st0).1.
Proof.
  apply (translate_content_ignores_source_lang Stub.env_ok (lit "Robots move.")
           (lit "ur") (lit "en") (lit "fr") Stub.st0).
  reflexivity.
Defined.

(** The proviso of C10 is needed: a store that enforces the width of
    column [source_lang] accepts the row of one run and refuses the row of
    the other. *)
Remark translate_content_source_lang_column_width :
  (translate_content Stub.env_varchar (lit "Robots move.") (lit "ur")
                     (lit "en") Stub.st0).1
  = Return (lit "ok")
  /\ (translate_content Stub.env_varchar (lit "Robots move.") (lit "ur")
                        (lit "english (US)") Stub.st0).1
     = Raise (Exn StoreError (lit "value too long for type character varying(10)")).
Proof. vm_compute. split; reflexivity. Qed.

(** UTF-8 is prefix-free: the encoding of a code point determines it. *)
Lemma encode_char_prefix_free c1 c2 b1 b2 (r1 r2 : list Z) :
  encode_char c1 = Some b1 -> encode_char c2 = Some b2 ->
  b1 ++ r1 = b2 ++ r2 -> c1 = c2 /\ r1 = r2.
Proof.
  unfold encode_char.
  pose proof (N2Z.is_nonneg c1). pose proof (N2Z.is_nonneg c2).
  repeat match goal with
         | |- context [?a <? ?b] => destruct (Z.ltb_spec a b)
         | |- context [(?a <=? ?b) && (?c <=? ?d)] =>
             destruct (Z.leb_spec a b); destruct (Z.leb_spec c d); cbn [andb]
         end;
    try discriminate;
    intros [= <-] [= <-]; cbn [app]; intros Heq;
    injection Heq as Heq; intros;
    (split; [apply N2Z.inj; subst; Z.div_mod_to_equations; lia
            | subst; try assumption; try reflexivity; Z.div_mod_to_equations; lia ]).
Qed.

Lemma encode_opt_inj s1 : forall s2 bs,
  encode_opt s1 = Some bs -> encode_opt s2 = Some bs -> s1 = s2.
Proof.
  induction s1 as [|c1 s1 IH]; intros [|c2 s2] bs; cbn [encode_opt].
  - reflexivity.
  - intros [= <-].
    destruct (encode_char c2) as [b2|] eqn:E2; [|discriminate].
    destruct (encode_opt s2); [|discriminate]. intros [= H].
    unfold encode_char in E2.
    repeat match type of E2 with
           | context [if ?b then _ else _] => destruct b
           end; try discriminate; injection E2 as <-; discriminate.
  - destruct (encode_char c1) as [b1|] eqn:E1; [|discriminate].
    destruct (encode_opt s1); [|discriminate]. intros [= <-] [= H].
    unfold encode_char in E1.
    repeat match type of E1 with
           | context [if ?b then _ else _] => destruct b
           end; try discriminate; injection E1 as <-; discriminate.
  - destruct (encode_char c1) as [b1|] eqn:E1; [|discriminate].
    destruct (encode_opt s1) as [r1|] eqn:R1; [|discriminate].
    destruct (encode_char c2) as [b2|] eqn:E2; [|discriminate].
    destruct (encode_opt s2) as [r2|] eqn:R2; [|discriminate].
    intros [= <-] [= H].
    destruct (encode_char_prefix_free c1 c2 b1 b2 r1 r2 E1 E2 (eq_sym H)) as [-> ->].
    f_equal. eapply IH; eauto.
Qed.

(** The separator splits [f"{content}_{target_lang}"] uniquely when the
    target language has no underscore. *)
Lemma hash_input_inj c1 : forall c2 t1 t2,
  95%N ∉ t1 -> 95%N ∉ t2 ->
  hash_input c1 t1 = hash_input c2 t2 -> c1 = c2 /\ t1 = t2.
Proof.
  unfold hash_input. change (lit "_") with [95%N].
  assert (Hrev : forall (l1 l2 r1 r2 : str),
             95%N ∉ l1 -> 95%N ∉ l2 ->
             l1 ++ 95%N :: r1 = l2 ++ 95%N :: r2 -> l1 = l2 /\ r1 = r2).
  { induction l1 as [|x l1 IH]; intros [|y l2] r1 r2 H1 H2; cbn.
    - intros [= ->]. auto.
    - intros [= <- _]. exfalso. apply H2. left.
    - intros [= -> _]. exfalso. apply H1. left.
    - intros [= -> H]. apply IH in H as [-> ->]; auto.
      + intros Hin. apply H1. right. exact Hin.
      + intros Hin. apply H2. right. exact Hin. }
  intros c2 t1 t2 H1 H2 H.
  apply (f_equal (@rev N)) in H. cbn in H. rewrite !rev_app_distr in H. cbn in H.
  rewrite <- !app_assoc in H. cbn in H.
  apply Hrev in H as [Ht Hc].
  - split; [apply rev_inj; exact Hc|apply rev_inj; exact Ht].
  - rewrite list_elem_of_In, <- in_rev, <- list_elem_of_In. exact H1.
  - rewrite list_elem_of_In, <- in_rev, <- list_elem_of_In. exact H2.
Qed.

(** C3, as stated, fails: two different pairs give the same formatted
    string, hence the same key, when the underscore can be read as part
    of either field. *)
Lemma content_hash_separator_collision :
  (lit "a_b", lit "c") <> (lit "a", lit "b_c")
  /\ _get_content_hash (lit "a_b") (lit "c") = _get_content_hash (lit "a") (lit "b_c")
  /\ _get_content_hash (lit "a_b") (lit "c")
     = Return (lit "8d28cddc274233853a82eae1c6c7f0b3").
Proof.
  split; [discriminate|]. split; vm_compute; reflexivity.
Qed.

(** C3 (amended): the key is the MD5 digest of the UTF-8 bytes of
    [f"{content}_{target_lang}"]; for two distinct pairs whose target
    languages contain no underscore these byte strings differ, so the two
    keys can coincide only where MD5 itself collides. *)
Theorem content_hash_distinct_inputs c1 t1 c2 t2 k1 k2 :
  95%N ∉ t1 -> 95%N ∉ t2 ->
  (c1, t1) <> (c2, t2) ->
  _get_content_hash c1 t1 = Return k1 ->
  _get_content_hash c2 t2 = Return k2 ->
  exists b1 b2,
    encode (hash_input c1 t1) = Return b1 /\ k1 = MD5.hexdigest b1
    /\ encode (hash_input c2 t2) = Return b2 /\ k2 = MD5.hexdigest b2
    /\ b1 <> b2.
Proof.
  intros H1 H2 Hne. unfold _get_content_hash, md5_hex, encode.
  destruct (encode_opt (hash_input c1 t1)) as [b1|] eqn:E1; [|discriminate].
  destruct (encode_opt (hash_input c2 t2)) as [b2|] eqn:E2; [|discriminate].
  intros [= <-] [= <-]. exists b1, b2. repeat split.
  intros ->. apply Hne.
  pose proof (encode_opt_inj _ _ _ E1 E2) as Heq.
  apply hash_input_inj in Heq as [-> ->]; auto.
Qed.

Lemma content_hash_distinct_inputs_witness :
  exists b1 b2,
    encode (hash_input (lit "Robots move.") (lit "ur")) = Return b1
    /\ lit "8895949373c3e17cc19928a9357a5de1" = MD5.hexdigest b1
    /\ encode (hash_input (lit "Robots move. ") (lit "ur")) = Return b2
    /\ lit "680dd1f5f3bc90a742b18db67edf6bd0" = MD5.hexdigest b2
    /\ b1 <> b2.
Proof.
  apply (content_hash_distinct_inputs (lit "Robots move.") (lit "ur")
           (lit "Robots move. ") (lit "ur")).
  - rewrite list_elem_of_In. cbn. intuition discriminate.
  - rewrite list_elem_of_In. cbn. intuition discriminate.
  - discriminate.
  - vm_compute. reflexivity.
  - vm_compute. reflexivity.
Defined.

End TranslationCacheProofs.

(* ===================================================================== *)
(** ** Chunker: size and shape of the chunks *)
(* ===================================================================== *)

Section ChunkerBounds.
Import EmbeddingService.

Lemma len_nonneg {A} (s : list A) : 0 <= len s.
Proof. unfold len. lia. Qed.

Lemma slice_length_le {A} (s : list A) (a b : Z) : len (slice s a b) <= len s.
Proof.
  unfold slice, len. rewrite length_take, length_drop. lia.
Qed.

Lemma lstrip_suffix s : exists k, lstrip s = drop k s.
Proof.
  induction s as [|c s [k IH]]; [exists 0%nat; reflexivity|].
  cbn. destruct (isspace c); [exists (S k); exact IH|exists 0%nat; reflexivity].
Qed.

Lemma lstrip_length s : (length (lstrip s) <= length s)%nat.
Proof. destruct (lstrip_suffix s) as [k ->]. rewrite length_drop. lia. Qed.

Lemma strip_length s : len (strip s) <= len s.
Proof.
  unfold strip, len. rewrite length_rev.
  pose proof (lstrip_length (rev (lstrip s))) as H1.
  rewrite length_rev in H1. pose proof (lstrip_length s). lia.
Qed.

Lemma lstrip_clean_head s : ScriptText.clean_head (lstrip s).
Proof.
  induction s as [|c s IH]; [exact I|].
  cbn. destruct (isspace c) eqn:E; [exact IH|exact E].
Qed.

Lemma lstrip_fixed s : ScriptText.clean_head s -> lstrip s = s.
Proof. destruct s as [|c s]; [reflexivity|]. cbn. intros ->. reflexivity. Qed.

Lemma clean_head_take (s : str) n : ScriptText.clean_head s -> ScriptText.clean_head (take n s).
Proof. destruct s, n; cbn; auto. Qed.

Lemma rev_drop_rev {A} (s : list A) k : rev (drop k (rev s)) = take (length s - k) s.
Proof.
  rewrite skipn_rev, rev_involutive. reflexivity.
Qed.

(** [strip] leaves no whitespace at either end. *)
Lemma strip_clean s : ScriptText.clean_head (strip s) /\ ScriptText.clean_head (rev (strip s)).
Proof.
  unfold strip. split.
  - destruct (lstrip_suffix (rev (lstrip s))) as [k ->].
    rewrite rev_drop_rev. apply clean_head_take, lstrip_clean_head.
  - rewrite rev_involutive. apply lstrip_clean_head.
Qed.

Lemma strip_idempotent s : strip (strip s) = strip s.
Proof.
  destruct (strip_clean s) as [H1 H2]. unfold strip at 1.
  rewrite (lstrip_fixed _ H1), (lstrip_fixed _ H2). apply rev_involutive.
Qed.

End ChunkerBounds.
Section ChunkerShape.
Import EmbeddingService.

Lemma slice_window_length {A} (s : list A) (a w : Z) :
  0 <= w -> len (slice s a (a + w)) <= w.
Proof.
  intros Hw. unfold slice, adjust, len.
  rewrite length_take, length_drop.
  destruct (a <? 0) eqn:E1; destruct (a + w <? 0) eqn:E2;
    try apply Z.ltb_lt in E1; try apply Z.ltb_lt in E2;
    try apply Z.ltb_ge in E1; try apply Z.ltb_ge in E2; lia.
Qed.

(** The chunk produced by one pass is trimmed and no longer than the
    window. *)
Lemma chunk_step_chunk text chunk_size overlap start :
  0 <= chunk_size ->
  let chunk := (chunk_step text chunk_size overlap start).1 in
  len chunk <= chunk_size /\ strip chunk = chunk.
Proof.
  intros Hcs. unfold chunk_step.
  pose proof (slice_window_length text start chunk_size Hcs) as Hw.
  destruct (start + chunk_size <? len text);
    [destruct (rfind _ _ >? chunk_size / 2)|]; cbn [fst];
    (split; [|apply strip_idempotent]).
  - pose proof (strip_length (slice (slice text start (start + chunk_size)) 0
                                    (rfind (slice text start (start + chunk_size)) (lit ". ") + 1))).
    pose proof (slice_length_le (slice text start (start + chunk_size)) 0
                  (rfind (slice text start (start + chunk_size)) (lit ". ") + 1)).
    lia.
  - pose proof (strip_length (slice text start (start + chunk_size))). lia.
  - pose proof (strip_length (slice text start (start + chunk_size))). lia.
Qed.

Lemma chunk_loop_shape text chunk_size overlap :
  0 <= chunk_size ->
  forall fuel start acc r,
    chunk_loop fuel text chunk_size overlap start acc = Some r ->
    exists new,
      r = acc ++ new
      /\ Forall (fun chunk => len chunk <= chunk_size /\ strip chunk = chunk) new
      /\ (start < len text -> new <> []).
Proof.
  intros Hcs. induction fuel as [|fuel IH]; intros start acc r H; [discriminate|].
  rewrite chunk_loop_unfold in H.
  destruct (start <? len text) eqn:Hc.
  - apply IH in H as (new & -> & Hall & _).
    exists ((chunk_step text chunk_size overlap start).1 :: new).
    split; [rewrite <- app_assoc; reflexivity|]. split.
    + constructor; [apply chunk_step_chunk; exact Hcs|exact Hall].
    + discriminate.
  - injection H as <-. exists []. rewrite app_nil_r.
    apply Z.ltb_ge in Hc. repeat split; [constructor|lia].
Qed.

Lemma chunk_loop_count text chunk_size overlap :
  0 <= overlap -> overlap < chunk_size -> overlap <= chunk_size / 2 ->
  forall fuel start acc r,
    0 <= start ->
    chunk_loop fuel text chunk_size overlap start acc = Some r ->
    (length r <= length acc + Z.to_nat (len text - start))%nat.
Proof.
  intros H0 Hlt Hhalf.
  induction fuel as [|fuel IH]; intros start acc r Hs H; [discriminate|].
  rewrite chunk_loop_unfold in H.
  destruct (start <? len text) eqn:Hc.
  - apply Z.ltb_lt in Hc.
    pose proof (chunk_step_progress text chunk_size overlap start H0 Hlt Hhalf Hc).
    apply IH in H; [|lia]. rewrite length_app in H. cbn in H. lia.
  - injection H as <-. lia.
Qed.

(** X1: [chunk_text] returns whenever the overlap is at most half of the chunk
    size; a non-empty text then yields at least one chunk and at most one
    chunk per character. *)
Theorem chunk_text_returns_between_1_and_len text chunk_size overlap :
  0 <= overlap -> overlap < chunk_size -> overlap <= chunk_size / 2 ->
  exists chunks,
    (forall fuel, (S (length text) <= fuel)%nat ->
                  chunk_text fuel text chunk_size overlap = Some chunks)
    /\ (length chunks <= length text)%nat
    /\ (text <> [] -> chunks <> []).
Proof.
  intros H0 Hlt Hhalf.
  destruct (chunk_loop_terminates text chunk_size overlap H0 Hlt Hhalf
              (S (length text)) 0 []) as [r Hr]; [lia|unfold len; lia|].
  exists r. split; [|split].
  - intros fuel Hf. unfold chunk_text. eapply chunk_loop_fuel_mono; eauto.
  - apply (chunk_loop_count text chunk_size overlap H0 Hlt Hhalf) in Hr; [|lia].
    cbn in Hr. unfold len in Hr. lia.
  - intros Hne. apply (chunk_loop_shape text chunk_size overlap) in Hr as (new & -> & _ & Hn);
      [|lia].
    cbn. apply Hn. unfold len. destruct text; [congruence|cbn; lia].
Qed.

Lemma chunk_text_returns_between_1_and_len_witness :
  exists chunks,
    (forall fuel, (S (length (lit "one. two. three. four.")) <= fuel)%nat ->
                  chunk_text fuel (lit "one. two. three. four.") 12 3 = Some chunks)
    /\ (length chunks <= length (lit "one. two. three. four."))%nat
    /\ (lit "one. two. three. four." <> [] -> chunks <> []).
Proof.
  apply (chunk_text_returns_between_1_and_len (lit "one. two. three. four.") 12 3).
  - lia.
  - lia.
  - vm_compute. discriminate.
Defined.

(** X2: whatever the overlap, no chunk is longer than [chunk_size], and every
    chunk is trimmed: stripping it again changes nothing. *)
Theorem chunk_text_chunks_within_size fuel text chunk_size overlap chunks :
  0 <= chunk_size ->
  chunk_text fuel text chunk_size overlap = Some chunks ->
  Forall (fun chunk => len chunk <= chunk_size /\ strip chunk = chunk) chunks.
Proof.
  intros Hcs H. apply (chunk_loop_shape text chunk_size overlap Hcs) in H
    as (new & -> & Hall & _).
  exact Hall.
Qed.

Lemma chunk_text_chunks_within_size_witness :
  Forall (fun chunk => len chunk <= 40 /\ strip chunk = chunk)
    [lit "Robots move. Actuators convert electrica";
     lit "electrical energy into motion.";
     lit "to motion. This is fundamental."].
Proof.
  apply (chunk_text_chunks_within_size 10
           (lit "Robots move. Actuators convert electrical energy into motion. This is fundamental.")
           40 10).
  - lia.
  - vm_compute. reflexivity.
Defined.

End ChunkerShape.

(* ===================================================================== *)
(** ** The script's text preparation *)
(* ===================================================================== *)

Section CleanText.
Import ScriptText.

Lemma single_spaced_drop k s : single_spaced s -> single_spaced (drop k s).
Proof.
  revert s. induction k as [|k IH]; intros [|c s]; cbn; auto.
  intros [_ H]. apply IH, H.
Qed.

Lemma single_spaced_take k s : single_spaced s -> single_spaced (take k s).
Proof.
  revert s. induction k as [|k IH]; intros [|c s]; cbn; auto.
  intros [Hc H]. split; [|apply IH, H].
  intros Hs. destruct (Hc Hs) as [-> Hh]. split; [reflexivity|].
  apply clean_head_take, Hh.
Qed.

Lemma strip_window s : exists k m, strip s = take m (drop k s).
Proof.
  unfold strip. destruct (lstrip_suffix s) as [k ->].
  destruct (lstrip_suffix (rev (drop k s))) as [j ->].
  rewrite rev_drop_rev. eauto.
Qed.

Lemma collapse_single_spaced s : forall in_run,
  single_spaced (collapse_whitespace in_run s)
  /\ (in_run = true -> clean_head (collapse_whitespace in_run s)).
Proof.
  induction s as [|c s IH]; intros in_run; [cbn; auto|].
  cbn [collapse_whitespace]. destruct (isspace c) eqn:Hc.
  - destruct in_run.
    + apply IH.
    + split; [|discriminate]. cbn. split; [|apply IH].
      intros _. split; [reflexivity|]. apply IH. reflexivity.
  - split; [|intros _; exact Hc]. cbn. split; [|apply IH].
    rewrite Hc. discriminate.
Qed.

Lemma collapse_ascii s : forall in_run,
  Forall (fun c => (c <= 127)%N) s ->
  Forall (fun c => (c <= 127)%N) (collapse_whitespace in_run s).
Proof.
  induction s as [|c s IH]; intros in_run H; [constructor|].
  inversion H as [|? ? Hc Hs]; subst. cbn [collapse_whitespace].
  destruct (isspace c); [destruct in_run|]; auto.
  constructor; [lia|auto].
Qed.

Lemma remove_non_ascii_ascii s : Forall (fun c => (c <= 127)%N) (remove_non_ascii s).
Proof.
  unfold remove_non_ascii. induction s as [|c s IH]; cbn; [constructor|].
  destruct (N.leb_spec c 127); [constructor; assumption|assumption].
Qed.

Lemma clean_text_ascii text : Forall (fun c => (c <= 127)%N) (clean_text text).
Proof.
  unfold clean_text.
  destruct (strip_window (collapse_whitespace false (remove_non_ascii text)))
    as (k & m & ->).
  apply Forall_take, Forall_drop, collapse_ascii, remove_non_ascii_ascii.
Qed.

Lemma clean_text_single_spaced text : single_spaced (clean_text text).
Proof.
  unfold clean_text.
  destruct (strip_window (collapse_whitespace false (remove_non_ascii text)))
    as (k & m & ->).
  apply single_spaced_take, single_spaced_drop, collapse_single_spaced.
Qed.

Lemma clean_text_trimmed text :
  clean_head (clean_text text) /\ clean_head (rev (clean_text text)).
Proof. unfold clean_text. apply strip_clean. Qed.

(** X3: a cleaned text is ASCII; its only whitespace is single spaces between
    other characters, none at either end. *)
Theorem clean_text_tidy text : tidy (clean_text text).
Proof.
  unfold tidy. split; [apply clean_text_ascii|].
  split; [apply clean_text_single_spaced|apply clean_text_trimmed].
Qed.

Lemma collapse_fixed s :
  single_spaced s ->
  collapse_whitespace false s = s
  /\ (clean_head s -> collapse_whitespace true s = s).
Proof.
  induction s as [|c s IH]; [cbn; auto|].
  cbn [single_spaced collapse_whitespace clean_head]. intros [Hc Hs].
  destruct (IH Hs) as [IH1 IH2].
  destruct (isspace c) eqn:E.
  - destruct (Hc eq_refl) as [-> Hh]. split; [|discriminate].
    rewrite (IH2 Hh). reflexivity.
  - rewrite IH1. auto.
Qed.

Lemma tidy_fixed s : tidy s -> clean_text s = s.
Proof.
  intros (Ha & Hs & H1 & H2). unfold clean_text.
  assert (remove_non_ascii s = s) as ->.
  { unfold remove_non_ascii. clear -Ha. induction Ha as [|c s Hc _ IH]; [reflexivity|].
    cbn. rewrite (proj2 (N.leb_le c 127) Hc), IH. reflexivity. }
  rewrite (proj1 (collapse_fixed s Hs)).
  unfold strip. rewrite (lstrip_fixed _ H1), (lstrip_fixed _ H2).
  apply rev_involutive.
Qed.

(** X4: cleaning a cleaned text changes nothing. *)
Theorem clean_text_idempotent text : clean_text (clean_text text) = clean_text text.
Proof.
  apply tidy_fixed. unfold tidy. split; [apply clean_text_ascii|].
  split; [apply clean_text_single_spaced|apply clean_text_trimmed].
Qed.

Lemma lstrip_visible s : List.filter visible (lstrip s) = List.filter visible s.
Proof.
  induction s as [|c s IH]; [reflexivity|]. cbn [lstrip].
  destruct (isspace c) eqn:E; [|reflexivity].
  cbn. unfold visible at 2. rewrite E, andb_false_r. exact IH.
Qed.

(** X5: cleaning removes only non-ASCII characters and whitespace: the other
    characters of the text are kept, in order. *)
Theorem clean_text_keeps_visible text :
  List.filter visible (clean_text text) = List.filter visible text.
Proof.
  unfold clean_text, strip.
  rewrite filter_rev, lstrip_visible, filter_rev, rev_involutive, lstrip_visible.
  generalize false as in_run.
  induction text as [|c text IH]; intros in_run; [reflexivity|].
  unfold remove_non_ascii in *. cbn [List.filter]. unfold visible at 2.
  destruct (N.leb_spec c 127) as [Hc|Hc]; cbn [andb].
  - cbn [collapse_whitespace]. destruct (isspace c) eqn:E; cbn [negb].
    + destruct in_run; [apply IH|]. cbn. rewrite IH. reflexivity.
    + cbn [List.filter]. unfold visible at 1. rewrite E, (proj2 (N.leb_le c 127) Hc).
      cbn. rewrite IH. reflexivity.
  - apply IH.
Qed.

End CleanText.

(* ===================================================================== *)
(** ** The script's chunker and the service's *)
(* ===================================================================== *)

Section ScriptChunker.

Lemma script_chunk_loop_nonempty text chunk_size overlap :
  forall fuel start acc r,
    Forall (fun chunk => chunk <> []) acc ->
    ScriptText.chunk_loop fuel text chunk_size overlap start acc = Some r ->
    Forall (fun chunk => chunk <> []) r.
Proof.
  induction fuel as [|fuel IH]; intros start acc r Hacc H; [discriminate|].
  cbn [ScriptText.chunk_loop] in H.
  destruct (start <? len text); [|injection H as <-; exact Hacc].
  revert H. cbv zeta.
  match goal with |- context [strip ?x] => generalize (strip x) end.
  intros chunk H. eapply IH; [|exact H].
  destruct chunk; [exact Hacc|].
  apply Forall_app. split; [exact Hacc|]. constructor; [discriminate|constructor].
Qed.

(** X6: the script's chunker never yields an empty chunk. *)
Theorem script_chunk_text_no_empty_chunk fuel text chunk_size overlap chunks :
  ScriptText.chunk_text fuel text chunk_size overlap = Some chunks ->
  Forall (fun chunk => chunk <> []) chunks.
Proof. apply script_chunk_loop_nonempty. constructor. Qed.

Lemma script_chunk_text_no_empty_chunk_witness :
  Forall (fun chunk => chunk <> []) [lit "a"].
Proof.
  apply (script_chunk_text_no_empty_chunk 10 (lit "a           ") 4 0).
  vm_compute. reflexivity.
Defined.

Lemma rfind_from_bounds sub s : forall i best,
  sub <> [] ->
  rfind_from s sub i best = best
  \/ (i <= rfind_from s sub i best < i + len s).
Proof.
  induction s as [|c s IH]; intros i best Hsub.
  - cbn. destruct sub; [congruence|]. left. reflexivity.
  - cbn [rfind_from].
    assert (Hlen : len (c :: s) = 1 + len s) by (unfold len; cbn [length]; lia).
    pose proof (len_nonneg s) as Hpos.
    destruct (startswith (c :: s) sub).
    + destruct (IH (i + 1) i Hsub) as [->|H]; lia.
    + destruct (IH (i + 1) best Hsub) as [->|H]; [left; reflexivity|lia].
Qed.

Lemma rfind_bounds s sub : sub <> [] -> -1 <= rfind s sub < len s \/ rfind s sub = -1.
Proof.
  intros H. unfold rfind. destruct (rfind_from_bounds sub s 0 (-1) H) as [->|Hb]; lia.
Qed.

Lemma slice_prefix_of_window {A} (s : list A) (a b k : Z) :
  0 <= a -> 0 <= k -> k <= len (slice s a b) ->
  slice (slice s a b) 0 k = slice s a (a + k).
Proof.
  intros Ha Hk Hle. unfold slice at 1. unfold adjust.
  change (0 <? 0) with false. cbv iota.
  destruct (k <? 0) eqn:E; [apply Z.ltb_lt in E; lia|].
  rewrite (Z.min_l 0) by apply len_nonneg. rewrite Z.min_l by exact Hle.
  rewrite Z.sub_0_r. cbn [Z.to_nat drop].
  revert Hle. unfold slice, adjust, len.
  rewrite length_take, length_drop.
  destruct (a <? 0) eqn:E1; [apply Z.ltb_lt in E1; lia|].
  destruct (a + k <? 0) eqn:E2; [apply Z.ltb_lt in E2; lia|].
  intros Hle. change (Z.to_nat 0) with 0%nat. rewrite drop_0.
  rewrite take_take. f_equal.
  destruct (b <? 0); lia.
Qed.

(** At a start inside the text, one pass of the script's loop computes the
    chunk and the next start that the service's loop computes. *)
Lemma script_step_eq text chunk_size overlap start :
  0 <= start -> start < len text -> 0 < chunk_size ->
  let end0 := start + chunk_size in
  let end_ :=
    if end0 <? len text then
      let sentence_end := ScriptText.rfind_between text (lit ". ") start end0 in
      if negb (sentence_end =? -1) && (sentence_end >? start + chunk_size / 2)
      then sentence_end + 1
      else end0
    else end0 in
  (strip (slice text start end_),
   if end_ <? len text then end_ - overlap else len text)
  = EmbeddingService.chunk_step text chunk_size overlap start.
Proof.
  intros Hs Hlt Hcs. cbv zeta. unfold EmbeddingService.chunk_step, ScriptText.rfind_between.
  destruct (start + chunk_size <? len text) eqn:He; [|rewrite He; reflexivity].
  assert (Hadj : adjust (len text) start = start).
  { unfold adjust. destruct (start <? 0) eqn:E; [apply Z.ltb_lt in E; lia|lia]. }
  rewrite Hadj.
  set (chunk := slice text start (start + chunk_size)).
  assert (Hsub : lit ". " <> []) by discriminate.
  pose proof (rfind_bounds chunk (lit ". ") Hsub) as Hb.
  assert (Hhalf : 0 <= chunk_size / 2) by (apply Z.div_pos; lia).
  destruct (rfind chunk (lit ". ") <? 0) eqn:En.
  - apply Z.ltb_lt in En. rewrite Z.eqb_refl. cbn [negb andb].
    destruct (rfind chunk (lit ". ") >? chunk_size / 2) eqn:Eg;
      [apply Z.gtb_lt in Eg; lia|].
    rewrite He. reflexivity.
  - apply Z.ltb_ge in En.
    destruct (start + rfind chunk (lit ". ") =? -1) eqn:Eq;
      [apply Z.eqb_eq in Eq; lia|].
    cbn [negb andb].
    replace (start + rfind chunk (lit ". ") >? start + chunk_size / 2)
      with (rfind chunk (lit ". ") >? chunk_size / 2)
      by (unfold Z.gtb; rewrite Z.add_compare_mono_l; reflexivity).
    destruct (rfind chunk (lit ". ") >? chunk_size / 2) eqn:Eg; [|rewrite He; reflexivity].
    fold chunk.
    assert (Hpre : slice chunk 0 (rfind chunk (lit ". ") + 1)
                   = slice text start (start + (rfind chunk (lit ". ") + 1))).
    { unfold chunk at 1. apply slice_prefix_of_window; fold chunk; lia. }
    rewrite Hpre, Z.add_assoc. reflexivity.
Qed.

Lemma script_chunk_loop_refines text chunk_size overlap :
  0 <= overlap -> overlap < chunk_size -> overlap <= chunk_size / 2 ->
  forall fuel start acc,
    0 <= start ->
    ScriptText.chunk_loop fuel text chunk_size overlap start
                          (filter (fun chunk => chunk <> []) acc)
    = filter (fun chunk => chunk <> [])
        <$> EmbeddingService.chunk_loop fuel text chunk_size overlap start acc.
Proof.
  intros H0 Hlt Hhalf.
  induction fuel as [|fuel IH]; intros start acc Hs; [reflexivity|].
  rewrite chunk_loop_unfold. cbn [ScriptText.chunk_loop].
  destruct (start <? len text) eqn:Hc; [|reflexivity].
  apply Z.ltb_lt in Hc.
  pose proof (script_step_eq text chunk_size overlap start Hs Hc ltac:(lia)) as Hstep.
  pose proof (chunk_step_progress text chunk_size overlap start H0 Hlt Hhalf Hc) as Hprog.
  cbv zeta in Hstep |- *.
  destruct (EmbeddingService.chunk_step text chunk_size overlap start) as [chunk next].
  injection Hstep as Hchunk Hnext. cbn [fst snd] in *.
  rewrite Hchunk, Hnext.
  rewrite <- IH by lia. f_equal.
  rewrite filter_app. destruct chunk; cbn.
  - destruct (decide (@nil N <> [])); [congruence|]. rewrite app_nil_r. reflexivity.
  - destruct (decide (n :: chunk <> [])); [reflexivity|]. exfalso. auto.
Qed.

(** X7: when the overlap is at most half of the chunk size, the script's
    chunker returns the chunks of the service's chunker with the empty ones
    dropped; it returns exactly when the service's does. *)
Theorem script_chunk_text_refines text chunk_size overlap fuel :
  0 <= overlap -> overlap < chunk_size -> overlap <= chunk_size / 2 ->
  ScriptText.chunk_text fuel text chunk_size overlap
  = filter (fun chunk => chunk <> [])
      <$> EmbeddingService.chunk_text fuel text chunk_size overlap.
Proof.
  intros H0 Hlt Hhalf. unfold ScriptText.chunk_text, EmbeddingService.chunk_text.
  rewrite <- (script_chunk_loop_refines text chunk_size overlap H0 Hlt Hhalf fuel 0 [])
    by lia.
  reflexivity.
Qed.

Lemma script_chunk_text_refines_witness :
  ScriptText.chunk_text 10 (lit "a           ") 4 0
  = filter (fun chunk => chunk <> [])
      <$> EmbeddingService.chunk_text 10 (lit "a           ") 4 0.
Proof.
  apply (script_chunk_text_refines (lit "a           ") 4 0 10).
  - lia.
  - lia.
  - vm_compute. discriminate.
Defined.

End ScriptChunker.

(* ===================================================================== *)
(** ** Indexing: what is written, and what is left alone *)
(* ===================================================================== *)

Section IndexingEffects.
Import EmbeddingService.

(** The effect of a pass on the stores: the cache is not touched, and an
    id of the collection either keeps its point or now holds a point that
    the pass sent. *)
Lemma embed_chunk_effect env metadata total idx chunk st r st' :
  embed_chunk env metadata total idx chunk st = (r, st') ->
  cache st' = cache st
  /\ exists new,
      calls st' = calls st ++ new
      /\ (length (upserted new) <= 1)%nat
      /\ Forall (fun p =>
                   payload_chunk_index (point_payload p) = idx
                   /\ payload_text (point_payload p) = chunk
                   /\ payload_total_chunks (point_payload p) = total
                   /\ metadata !! lit "chapter_id" = Some (payload_chapter_id (point_payload p))
                   /\ metadata !! lit "chapter_title"
                      = Some (payload_chapter_title (point_payload p))
                   /\ content_id (payload_chapter_id (point_payload p)) idx
                      = Return (point_id p))
                (upserted new)
      /\ (forall id,
             points st' !! id = points st !! id
             \/ exists p, p ∈ upserted new /\ point_id p = id
                          /\ points st' !! id = Some p).
Proof.
  unfold embed_chunk, bind, getitem, lift, ret, raise.
  destruct (embeddings_create env (calls st) chunk) as [v|e]; cbn -[lit];
    [|intros [= <- <-]; cbn; split; [reflexivity|]; eexists; split; [reflexivity|];
      cbn; repeat split; auto].
  destruct (metadata !! lit "chapter_id") as [cid|] eqn:Hcid; cbn -[lit];
    [|intros [= <- <-]; cbn; split; [reflexivity|]; eexists; split; [reflexivity|];
      cbn; repeat split; auto].
  destruct (content_id cid idx) as [cid_hash|e] eqn:Hid; cbn -[lit];
    [|intros [= <- <-]; cbn; split; [reflexivity|]; eexists; split; [reflexivity|];
      cbn; repeat split; auto].
  destruct (metadata !! lit "chapter_title") as [title|] eqn:Htitle; cbn -[lit];
    [|intros [= <- <-]; cbn; split; [reflexivity|]; eexists; split; [reflexivity|];
      cbn; repeat split; auto].
  match goal with |- context [qdrant_upsert env ?h [?p]] =>
    destruct (qdrant_upsert env h [p]) as [e|]; intros [= <- <-]; cbn -[lit];
    (split; [reflexivity|]);
    exists [EmbeddingsCreate embedding_model chunk; QdrantUpsert collection_name [p]];
    (split; [rewrite <- app_assoc; reflexivity|]);
    (split; [cbn; lia|]);
    (split; [cbn; repeat constructor; assumption|])
  end.
  - intros id. left. reflexivity.
  - intros id. destruct (decide (cid_hash = id)) as [<-|Hne].
    + right. eexists. split; [cbn; left|]. split; [reflexivity|].
      apply lookup_insert_eq.
    + left. apply lookup_insert_ne. exact Hne.
Qed.

Lemma embed_chunks_effect env metadata all rest :
  forall idx st r st',
    (forall k c, rest !! k = Some c -> all !! (idx + k)%nat = Some c) ->
    embed_chunks env metadata (length all) idx rest st = (r, st') ->
    cache st' = cache st
    /\ exists new,
        calls st' = calls st ++ new
        /\ (length (upserted new) <= length rest)%nat
        /\ Forall (describes metadata all) (upserted new)
        /\ (forall id,
               points st' !! id = points st !! id
               \/ exists p, p ∈ upserted new /\ point_id p = id
                            /\ points st' !! id = Some p).
Proof.
  induction rest as [|chunk rest IH]; intros idx st r st' Hall Hrun.
  - cbn in Hrun. injection Hrun as <- <-. split; [reflexivity|].
    exists []. rewrite app_nil_r. repeat split; [cbn; lia|constructor|auto].
  - cbn [embed_chunks] in Hrun. unfold bind at 1, try_except in Hrun.
    destruct (embed_chunk env metadata (length all) idx chunk st) as [r1 st1] eqn:Hstep.
    apply embed_chunk_effect in Hstep as (Hc1 & new1 & Hcalls1 & Hlen1 & Hd1 & Hp1).
    assert (Hdesc1 : Forall (describes metadata all) (upserted new1)).
    { eapply Forall_impl; [exact Hd1|]. cbn. intros p (Hi & Ht & Hn & Hm & Hti & Hid).
      unfold describes. cbn. rewrite Hi, Ht. repeat split; try assumption.
      rewrite <- (Nat.add_0_r idx). apply Hall. reflexivity. }
    destruct r1 as [[]|e].
    + apply IH in Hrun as (Hc2 & new2 & Hcalls2 & Hlen2 & Hd2 & Hp2).
      2:{ intros k c Hk. replace (S idx + k)%nat with (idx + S k)%nat by lia.
          apply Hall. exact Hk. }
      split; [congruence|]. exists (new1 ++ new2).
      split; [rewrite Hcalls2, Hcalls1, app_assoc; reflexivity|].
      unfold upserted in *. rewrite flat_map_app, length_app.
      split; [cbn [length]; lia|]. split; [apply Forall_app; auto|].
      intros id. destruct (Hp2 id) as [H2|(p & Hin & Hid & Hl)].
      * destruct (Hp1 id) as [H1|(p & Hin & Hid & Hl)].
        -- left. congruence.
        -- right. exists p. split; [apply elem_of_app; auto|]. split; [exact Hid|congruence].
      * right. exists p. split; [apply elem_of_app; auto|]. auto.
    + unfold bind, logger_error, raise in Hrun. injection Hrun as <- <-.
      cbn [cache points calls record_error].
      split; [exact Hc1|]. exists new1. split; [exact Hcalls1|].
      split; [cbn [length]; lia|]. split; [exact Hdesc1|exact Hp1].
Qed.

Lemma embed_content_effect env content metadata st r st' :
  embed_content env content metadata st = (r, st') ->
  cache st' = cache st
  /\ exists new,
      calls st' = calls st ++ new
      /\ (length (upserted new) <= length (chunk_text_default content))%nat
      /\ Forall (describes metadata (chunk_text_default content)) (upserted new)
      /\ (forall id,
             points st' !! id = points st !! id
             \/ exists p, p ∈ upserted new /\ point_id p = id
                          /\ points st' !! id = Some p).
Proof.
  unfold embed_content, bind. intros Hrun.
  destruct (embed_chunks env metadata (length (chunk_text_default content)) 0
              (chunk_text_default content) st) as [r1 st1] eqn:Hloop.
  assert (st' = st1) as -> by (destruct r1; unfold ret in Hrun; congruence).
  eapply embed_chunks_effect; [|exact Hloop]. intros k c Hk. exact Hk.
Qed.

(** X8: every point that [embed_content] sends to the store describes the
    document: its text is the chunk at its index, its [total_chunks] is the
    number of chunks, its chapter id and title are the metadata's, and its
    id is derived from chapter id and index.  At most one point is sent per
    chunk. *)
Theorem embed_content_points_describe_chunks env content metadata st r st' :
  embed_content env content metadata st = (r, st') ->
  exists new,
    calls st' = calls st ++ new
    /\ (length (upserted new) <= length (chunk_text_default content))%nat
    /\ Forall (describes metadata (chunk_text_default content)) (upserted new).
Proof.
  intros H. apply embed_content_effect in H as (_ & new & H1 & H2 & H3 & _). eauto.
Qed.

(** X9: [embed_content] never removes a point and never writes under an id
    other than those of the points it sent; it does not touch the
    translation cache.  Points of an earlier, longer version of a document
    therefore stay in the collection. *)
Theorem embed_content_only_writes_its_ids env content metadata st r st' :
  embed_content env content metadata st = (r, st') ->
  cache st' = cache st
  /\ dom (points st) ⊆ dom (points st')
  /\ exists new,
      calls st' = calls st ++ new
      /\ forall id,
          (forall p, p ∈ upserted new -> point_id p <> id) ->
          points st' !! id = points st !! id.
Proof.
  intros H. apply embed_content_effect in H as (Hc & new & H1 & _ & _ & Hp).
  split; [exact Hc|]. split.
  - intros id Hin. apply elem_of_dom in Hin. apply elem_of_dom.
    destruct (Hp id) as [->|(p & _ & _ & ->)]; [exact Hin|eauto].
  - exists new. split; [exact H1|]. intros id Hnot.
    destruct (Hp id) as [Heq|(p & Hin & Hid & _)]; [exact Heq|].
    exfalso. exact (Hnot p Hin Hid).
Qed.

End IndexingEffects.

Section DeleteAndReindex.
Import EmbeddingService.

Lemma embed_content_points_describe_chunks_witness :
  let run := embed_content Stub.env_ok Stub.long_content Stub.metadata Stub.st0 in
  exists new,
    calls run.2 = calls Stub.st0 ++ new
    /\ (length (upserted new) <= length (chunk_text_default Stub.long_content))%nat
    /\ Forall (describes Stub.metadata (chunk_text_default Stub.long_content))
              (upserted new).
Proof.
  intros run.
  assert (Hrun : run = (Return 2, run.2)) by (vm_compute; reflexivity).
  exact (embed_content_points_describe_chunks Stub.env_ok Stub.long_content
           Stub.metadata Stub.st0 (Return 2) run.2 Hrun).
Defined.

Lemma embed_content_only_writes_its_ids_witness :
  let run := embed_content Stub.env_ok Stub.long_content Stub.metadata Stub.st0 in
  cache run.2 = cache Stub.st0
  /\ dom (points Stub.st0) ⊆ dom (points run.2)
  /\ exists new,
      calls run.2 = calls Stub.st0 ++ new
      /\ forall id,
          (forall p, p ∈ upserted new -> point_id p <> id) ->
          points run.2 !! id = points Stub.st0 !! id.
Proof.
  intros run.
  assert (Hrun : run = (Return 2, run.2)) by (vm_compute; reflexivity).
  exact (embed_content_only_writes_its_ids Stub.env_ok Stub.long_content
           Stub.metadata Stub.st0 (Return 2) run.2 Hrun).
Defined.

Lemma delete_returns_true env chapter_id st st' :
  delete_chapter_embeddings env chapter_id st = (Return true, st') ->
  points st' = delete_matching chapter_id (points st)
  /\ cache st' = cache st /\ errors st' = errors st.
Proof.
  unfold delete_chapter_embeddings, try_except, bind, ret, logger_error.
  destruct (qdrant_delete env (calls st) chapter_id); cbn -[lit];
    intros [= <-]; auto.
Qed.

Lemma delete_matching_clears (chapter_id : str) (m : gmap str PointStruct) :
  chapter_points chapter_id (delete_matching chapter_id m) = ∅.
Proof.
  unfold chapter_points, delete_matching.
  apply map_eq. intros id. rewrite lookup_empty.
  apply map_lookup_filter_None. right. intros p Hl Hch.
  apply map_lookup_filter_Some in Hl as [_ Hne]. exact (Hne Hch).
Qed.

(** X10: after a deletion that reported success, the chapter has no point left
    in the collection, the points of every other chapter are as they were,
    and the translation cache is untouched. *)
Theorem delete_chapter_embeddings_clears_chapter env chapter_id st st' :
  delete_chapter_embeddings env chapter_id st = (Return true, st') ->
  chapter_count chapter_id (points st') = 0%nat
  /\ (forall other, other <> chapter_id ->
                    chapter_points other (points st') = chapter_points other (points st))
  /\ cache st' = cache st.
Proof.
  intros H. apply delete_returns_true in H as (Hp & Hc & _).
  rewrite Hp. split; [|split; [|exact Hc]].
  - unfold chapter_count. rewrite delete_matching_clears. apply map_size_empty.
  - unfold chapter_points, delete_matching. intros other Hne. apply map_eq. intros id. apply option_eq. intros p.
    rewrite !map_lookup_filter_Some. cbn. intuition congruence.
Qed.

Lemma delete_chapter_embeddings_clears_chapter_witness :
  let run1 := embed_content Stub.env_ok Stub.long_content Stub.metadata Stub.st0 in
  let run2 := delete_chapter_embeddings Stub.env_ok (lit "intro.md") run1.2 in
  chapter_count (lit "intro.md") (points run1.2) = 2%nat
  /\ chapter_count (lit "intro.md") (points run2.2) = 0%nat.
Proof.
  intros run1 run2. split; [vm_compute; reflexivity|].
  assert (H : run2 = (Return true, run2.2)) by (vm_compute; reflexivity).
  exact (proj1 (delete_chapter_embeddings_clears_chapter Stub.env_ok (lit "intro.md")
                  run1.2 run2.2 H)).
Defined.

Lemma size_list_to_set_le (l : list str) : (size (list_to_set l : gset str) <= length l)%nat.
Proof.
  induction l as [|x l IH]; cbn [list_to_set length].
  - rewrite size_empty. lia.
  - rewrite size_union_alt, size_singleton.
    assert (Hsub : (list_to_set l : gset str) ∖ {[x]} ⊆ list_to_set l).
    { intros y Hy. apply elem_of_difference in Hy as [Hy _]. exact Hy. }
    apply subseteq_size in Hsub. lia.
Qed.

(** X11: re-embedding after an explicit deletion: once the chapter's points have
    been deleted, a run of [embed_content] for that chapter leaves it with
    at most one point per chunk, whether the run completes or not. *)
Theorem delete_then_embed_content_count
        env1 env2 content metadata chapter_id st st1 r st2 :
  metadata !! lit "chapter_id" = Some chapter_id ->
  delete_chapter_embeddings env1 chapter_id st = (Return true, st1) ->
  embed_content env2 content metadata st1 = (r, st2) ->
  (chapter_count chapter_id (points st2) <= length (chunk_text_default content))%nat.
Proof.
  intros Hcid Hdel Hrun.
  apply delete_returns_true in Hdel as (Hdel & _ & _).
  pose proof (delete_matching_clears chapter_id (points st)) as Hzero.
  rewrite <- Hdel in Hzero.
  apply embed_content_effect in Hrun as (_ & new & _ & Hlen & _ & Hp).
  unfold chapter_count in *.
  rewrite <- size_dom.
  etransitivity; [|exact Hlen].
  etransitivity; [|rewrite <- (length_fmap point_id); apply size_list_to_set_le].
  apply subseteq_size. intros id Hin.
  apply elem_of_dom in Hin as [p Hl].
  apply map_lookup_filter_Some in Hl as [Hl Hch]. cbn in Hch.
  destruct (Hp id) as [Heq|(p' & Hin' & Hid & _)].
  - exfalso. rewrite Hl in Heq.
    assert (Hc : chapter_points chapter_id (points st1) !! id = Some p).
    { apply map_lookup_filter_Some. split; [congruence|exact Hch]. }
    rewrite Hzero, lookup_empty in Hc. discriminate.
  - apply elem_of_list_to_set, list_elem_of_fmap. exists p'. auto.
Qed.

Lemma delete_then_embed_content_count_witness :
  let run0 := embed_content Stub.env_ok Stub.long_content Stub.metadata Stub.st0 in
  let run1 := delete_chapter_embeddings Stub.env_ok (lit "intro.md") run0.2 in
  let run2 := embed_content Stub.env_ok (lit "Robots move.") Stub.metadata run1.2 in
  chapter_count (lit "intro.md") (points run0.2) = 2%nat
  /\ (chapter_count (lit "intro.md") (points run2.2)
      <= length (chunk_text_default (lit "Robots move.")))%nat.
Proof.
  intros run0 run1 run2. split; [vm_compute; reflexivity|].
  assert (H1 : run1 = (Return true, run1.2)) by (vm_compute; reflexivity).
  assert (H2 : run2 = (Return 1, run2.2)) by (vm_compute; reflexivity).
  exact (delete_then_embed_content_count Stub.env_ok Stub.env_ok (lit "Robots move.")
           Stub.metadata (lit "intro.md") run0.2 run1.2 (Return 1) run2.2
           eq_refl H1 H2).
Defined.

End DeleteAndReindex.

Section MissingMetadata.
Import EmbeddingService.

Lemma chunk_text_default_nonempty content :
  content <> [] -> exists chunk rest, chunk_text_default content = chunk :: rest.
Proof.
  intros Hne. pose proof (chunk_text_default_returns content) as H.
  unfold chunk_text in H.
  apply (chunk_loop_shape content 1000 200 ltac:(lia)) in H as (new & Hnew & _ & Hn).
  rewrite app_nil_l in Hnew. rewrite Hnew.
  destruct new as [|chunk rest]; [|eauto].
  exfalso. apply Hn; [|reflexivity]. unfold len. destruct content; [congruence|cbn; lia].
Qed.

(** X12: a missing ["chapter_id"] is noticed only after the embedding of the
    first chunk has been requested: for a non-empty content the run asks
    the provider for that one embedding, stores nothing, logs the failure
    of chunk 0 and raises - the provider's exception if the request failed,
    [KeyError('chapter_id')] otherwise. *)
Theorem embed_content_missing_chapter_id env content metadata st :
  content <> [] ->
  metadata !! lit "chapter_id" = None ->
  exists chunk rest e,
    chunk_text_default content = chunk :: rest
    /\ e = match embeddings_create env (calls st) chunk with
           | Raise e => e
           | Return _ => Exn KeyError (lit "'chapter_id'")
           end
    /\ embed_content env content metadata st
       = (Raise e,
          record_error (embed_error_message 0 e)
            (record_call (EmbeddingsCreate embedding_model chunk) st)).
Proof.
  intros Hne Hmiss.
  destruct (chunk_text_default_nonempty content Hne) as (chunk & rest & Hchunks).
  exists chunk, rest. eexists. split; [exact Hchunks|]. split; [reflexivity|].
  unfold embed_content. rewrite Hchunks. cbn [embed_chunks].
  cbv [bind try_except embed_chunk getitem lift ret raise logger_error].
  rewrite Hmiss.
  destruct (embeddings_create env (calls st) chunk) as [v|e]; reflexivity.
Qed.

Lemma embed_content_missing_chapter_id_witness :
  exists chunk rest e,
    chunk_text_default (lit "Robots move.") = chunk :: rest
    /\ e = match embeddings_create Stub.env_ok (calls Stub.st0) chunk with
           | Raise e => e
           | Return _ => Exn KeyError (lit "'chapter_id'")
           end
    /\ embed_content Stub.env_ok (lit "Robots move.") ∅ Stub.st0
       = (Raise e,
          record_error (embed_error_message 0 e)
            (record_call (EmbeddingsCreate embedding_model chunk) Stub.st0)).
Proof.
  apply (embed_content_missing_chapter_id Stub.env_ok (lit "Robots move.") ∅ Stub.st0).
  - discriminate.
  - reflexivity.
Defined.

End MissingMetadata.

(* ===================================================================== *)
(** ** Retrieval: results, order, failures *)
(* ===================================================================== *)

Section Retrieval.
Import EmbeddingService RAGService.

Lemma build_results_mirror hits : forall st r st',
  build_results hits st = (r, st') ->
  st' = st
  /\ match r with
     | Return docs => Forall2 doc_of_hit hits docs
     | Raise e => exn_class_of e = KeyError
     end.
Proof.
  induction hits as [|hit hits IH]; intros st r st'.
  - cbn. intros [= <- <-]. split; [reflexivity|constructor].
  - cbn [build_results]. unfold bind, getitem, ret, raise.
    destruct (hit_text hit) as [text|] eqn:H1; [|intros [= <- <-]; auto].
    destruct (hit_chapter_id hit) as [cid|] eqn:H2; [|intros [= <- <-]; auto].
    destruct (hit_chapter_title hit) as [title|] eqn:H3; [|intros [= <- <-]; auto].
    destruct (build_results hits st) as [[docs|e] st1] eqn:Hrest;
      apply IH in Hrest as [-> Hr]; intros [= <- <-]; split; auto.
    constructor; [|exact Hr]. unfold doc_of_hit. cbn. auto.
Qed.

(** Every outcome of [search_similar], in one statement. *)
Lemma search_similar_outcome env query limit chapter_id st r st' :
  search_similar env query limit chapter_id st = (r, st') ->
  points st' = points st /\ cache st' = cache st
  /\ chat_calls (calls st') = chat_calls (calls st)
  /\ match r with
     | Return docs =>
         errors st' = errors st
         /\ exists v hits,
             embeddings_create env (calls st) query = Return v
             /\ qdrant_search env (calls st ++ [EmbeddingsCreate embedding_model query])
                              v limit (search_filter chapter_id) = Return hits
             /\ Forall2 doc_of_hit hits docs
     | Raise e => errors st' = errors st ++ [search_error_message e]
     end.
Proof.
  unfold search_similar, try_except, bind, logger_error, raise.
  destruct (embeddings_create env (calls st) query) as [v|e] eqn:Hv; cbn -[lit chat_calls].
  - destruct (qdrant_search _ _ _ _ _) as [hits|e] eqn:Hh; cbn -[lit chat_calls].
    + match goal with |- context [build_results hits ?s] =>
        destruct (build_results hits s) as [[docs|e] st1] eqn:Hb;
        apply build_results_mirror in Hb as [-> Hb]
      end; intros [= <- <-]; cbn -[lit chat_calls]; rewrite !chat_calls_app, !app_nil_r;
        repeat split; eauto.
    + intros [= <- <-]. cbn -[lit chat_calls]. rewrite !chat_calls_app, !app_nil_r.
      repeat split.
  - intros [= <- <-]. cbn -[lit chat_calls]. rewrite !chat_calls_app, !app_nil_r.
    repeat split.
Qed.

(** X13: the results of a search follow the hits of the store one to one and in
    the store's order: same texts, chapters and scores, with index 0 for a
    hit whose payload has no chunk index. *)
Theorem search_similar_results_mirror_hits env query limit chapter_id st docs st' :
  search_similar env query limit chapter_id st = (Return docs, st') ->
  exists v hits,
    embeddings_create env (calls st) query = Return v
    /\ qdrant_search env (calls st ++ [EmbeddingsCreate embedding_model query])
                     v limit (search_filter chapter_id) = Return hits
    /\ Forall2 doc_of_hit hits docs.
Proof.
  intros H. apply search_similar_outcome in H as (_ & _ & _ & _ & H). exact H.
Qed.

(** X14: [search_similar] only reads: whatever happens, the collection and the
    cache are as before.  A failure - of the embedding, of the store, or a
    hit without one of the payload keys - is logged once and raised. *)
Theorem search_similar_reads_only env query limit chapter_id st r st' :
  search_similar env query limit chapter_id st = (r, st') ->
  points st' = points st /\ cache st' = cache st
  /\ errors st' = match r with
                  | Return _ => errors st
                  | Raise e => errors st ++ [search_error_message e]
                  end.
Proof.
  intros H. apply search_similar_outcome in H as (Hp & Hc & _ & H).
  split; [exact Hp|]. split; [exact Hc|]. destruct r; [apply H|exact H].
Qed.

Lemma search_similar_results_mirror_hits_witness :
  exists v hits,
    embeddings_create Stub.env_three_hits (calls Stub.st0) (lit "what converts energy?")
    = Return v
    /\ qdrant_search Stub.env_three_hits
         (calls Stub.st0 ++ [EmbeddingsCreate embedding_model (lit "what converts energy?")])
         v 5 (search_filter None) = Return hits
    /\ Forall2 doc_of_hit hits
         (match (search_similar Stub.env_three_hits (lit "what converts energy?") 5 None
                                Stub.st0).1 with
          | Return docs => docs
          | Raise _ => []
          end).
Proof.
  apply (search_similar_results_mirror_hits Stub.env_three_hits
           (lit "what converts energy?") 5 None Stub.st0 _
           (search_similar Stub.env_three_hits (lit "what converts energy?") 5 None
                           Stub.st0).2).
  reflexivity.
Defined.

Lemma search_similar_reads_only_witness :
  let run := search_similar Stub.env_store_down (lit "what converts energy?") 5 None
                            Stub.st0 in
  points run.2 = points Stub.st0 /\ cache run.2 = cache Stub.st0
  /\ errors run.2 = errors Stub.st0 ++ [search_error_message Stub.store_down].
Proof.
  intros run.
  exact (search_similar_reads_only Stub.env_store_down (lit "what converts energy?")
           5 None Stub.st0 (Raise Stub.store_down) run.2 eq_refl).
Defined.

(** Every outcome of [answer_with_context]. *)
Lemma answer_with_context_outcome env query chapter_id limit st r st' :
  answer_with_context env query chapter_id limit st = (r, st') ->
  points st' = points st /\ cache st' = cache st
  /\ match r with
     | Return (answer, docs) =>
         errors st' = errors st
         /\ (exists v hits,
                embeddings_create env (calls st) query = Return v
                /\ qdrant_search env (calls st ++ [EmbeddingsCreate embedding_model query])
                                 v limit (search_filter chapter_id) = Return hits
                /\ Forall2 doc_of_hit hits docs)
         /\ chat_calls (calls st')
            = chat_calls (calls st)
              ++ match docs with [] => [] | _ :: _ => [generate_request query docs] end
         /\ (docs = [] -> answer = Some fallback_message)
     | Raise e =>
         (errors st' = errors st ++ [search_error_message e]
          /\ chat_calls (calls st') = chat_calls (calls st))
         \/ (errors st' = errors st ++ [generate_error_message e]
             /\ exists docs, chat_calls (calls st')
                             = chat_calls (calls st) ++ [generate_request query docs])
     end.
Proof.
  unfold answer_with_context, bind.
  destruct (search_similar env query limit chapter_id st) as [[docs|e] st1] eqn:Hs;
    apply search_similar_outcome in Hs as (Hp & Hc & Hchat & Hr).
  - destruct Hr as [He Hhits]. destruct docs as [|doc docs].
    + unfold ret. intros [= <- <-]. rewrite app_nil_r. repeat split; auto.
    + unfold generate_response, try_except, bind, ret, logger_error, raise.
      destruct (chat_create env (calls st1) (generate_request query (doc :: docs)))
        as [answer|e]; cbn -[lit chat_calls generate_request];
        intros [= <- <-]; cbn -[lit chat_calls generate_request];
        rewrite chat_calls_app, Hchat.
      * repeat split; auto. discriminate.
      * split; [exact Hp|]. split; [exact Hc|]. right. rewrite He. eauto.
  - intros [= <- <-]. auto.
Qed.

(** X15: the source list that [answer_with_context] returns follows the hits of
    the store one to one and in the store's order; a generation request is
    issued exactly when that list is not empty, once, for that list. *)
Theorem answer_with_context_sources_mirror_hits
        env query chapter_id limit st answer docs st' :
  answer_with_context env query chapter_id limit st = (Return (answer, docs), st') ->
  (exists v hits,
      embeddings_create env (calls st) query = Return v
      /\ qdrant_search env (calls st ++ [EmbeddingsCreate embedding_model query])
                       v limit (search_filter chapter_id) = Return hits
      /\ Forall2 doc_of_hit hits docs)
  /\ chat_calls (calls st')
     = chat_calls (calls st)
       ++ match docs with [] => [] | _ :: _ => [generate_request query docs] end.
Proof.
  intros H. apply answer_with_context_outcome in H as (_ & _ & _ & Hh & Hc & _). auto.
Qed.

Lemma answer_with_context_sources_mirror_hits_witness :
  let run := answer_with_context Stub.env_three_hits (lit "what converts energy?")
                                 None 5 Stub.st0 in
  (doc_score <$> match run.1 with Return (_, docs) => docs | Raise _ => [] end)
  = [950; 900; 700]
  /\ length (chat_calls (calls run.2)) = 1%nat.
Proof.
  intros run.
  assert (Hrun : exists docs, run = (Return (Some (lit "ok"), docs), run.2))
    by (eexists; vm_compute; reflexivity).
  destruct Hrun as [docs Hrun].
  destruct (answer_with_context_sources_mirror_hits Stub.env_three_hits
              (lit "what converts energy?") None 5 Stub.st0 _ docs run.2 Hrun)
    as [_ Hchat].
  split; [vm_compute; reflexivity|]. vm_compute. reflexivity.
Defined.

(** X16: [answer_with_context] only reads the stores; when it fails it has
    logged exactly one error, that of the step that failed - retrieval
    (then no generation request was issued) or generation - and raises that
    step's exception. *)
Theorem answer_with_context_failure_logged_once
        env query chapter_id limit st r st' :
  answer_with_context env query chapter_id limit st = (r, st') ->
  points st' = points st /\ cache st' = cache st
  /\ match r with
     | Return _ => errors st' = errors st
     | Raise e =>
         (errors st' = errors st ++ [search_error_message e]
          /\ chat_calls (calls st') = chat_calls (calls st))
         \/ (errors st' = errors st ++ [generate_error_message e]
             /\ exists docs, chat_calls (calls st')
                             = chat_calls (calls st) ++ [generate_request query docs])
     end.
Proof.
  intros H. apply answer_with_context_outcome in H as (Hp & Hc & H).
  split; [exact Hp|]. split; [exact Hc|].
  destruct r as [[answer docs]|e]; [apply H|exact H].
Qed.

Lemma answer_with_context_failure_logged_once_witness :
  let run := answer_with_context Stub.env_store_down (lit "what converts energy?")
                                 None 5 Stub.st0 in
  points run.2 = points Stub.st0 /\ cache run.2 = cache Stub.st0
  /\ ((errors run.2 = errors Stub.st0 ++ [search_error_message Stub.store_down]
       /\ chat_calls (calls run.2) = chat_calls (calls Stub.st0))
      \/ (errors run.2 = errors Stub.st0 ++ [generate_error_message Stub.store_down]
          /\ exists docs, chat_calls (calls run.2)
                          = chat_calls (calls Stub.st0)
                            ++ [generate_request (lit "what converts energy?") docs])).
Proof.
  intros run.
  exact (answer_with_context_failure_logged_once Stub.env_store_down
           (lit "what converts energy?") None 5 Stub.st0 (Raise Stub.store_down)
           run.2 eq_refl).
Defined.

End Retrieval.

(* ===================================================================== *)
(** ** Translation cache: invariants and batches *)
(* ===================================================================== *)

Section TranslationInvariants.
Import TranslationService.

(** Every outcome of [translate_content]: the table is left as it was, or
    has one more row - the one for this key, holding the text returned. *)
Lemma translate_content_outcome env content target_lang source_lang st r st' :
  translate_content env content target_lang source_lang st = (r, st') ->
  points st' = points st
  /\ (length (chat_calls (calls st')) <= length (chat_calls (calls st)) + 1)%nat
  /\ ((cache st' = cache st
       /\ (forall text, r = Return text -> cached (cache st) content target_lang text))
      \/ (exists h text,
             _get_content_hash content target_lang = Return h
             /\ r = Return text
             /\ List.find (fun row => bool_decide (content_hash row = h)) (cache st) = None
             /\ cache st' = cache st ++ [{| content_hash := h; source_lang := source_lang;
                                            target_lang := target_lang;
                                            translated_content := text |}])).
Proof.
  unfold translate_content, bind, lift, query_first, try_except.
  destruct (_get_content_hash content target_lang) as [h|e] eqn:Hh;
    [|intros [= <- <-]; split; [reflexivity|]; split; [lia|]; left;
      split; [reflexivity|discriminate]].
  cbn -[lit chat_calls]. destruct (List.find _ (cache st)) as [row|] eqn:Hfind.
  - unfold ret. intros [= <- <-]. cbn -[lit chat_calls].
    rewrite chat_calls_app, length_app. split; [reflexivity|]. split; [cbn; lia|].
    left. split; [reflexivity|]. intros text [= <-]. exists h, row. auto.
  - cbn -[lit translate_request chat_calls].
    destruct (chat_create env _ _) as [[translated|]|e];
      cbn -[lit translate_request chat_calls].
    + destruct (existsb _ (cache st)).
      { intros [= <- <-]. cbn -[lit translate_request chat_calls].
        rewrite !chat_calls_app, !length_app. split; [reflexivity|]. split; [cbn; lia|].
        left. split; [reflexivity|discriminate]. }
      destruct (db_commit env _ _); intros [= <- <-];
        cbn -[lit translate_request chat_calls];
        rewrite !chat_calls_app, !length_app;
        (split; [reflexivity|]); (split; [cbn; lia|]).
      * left. split; [reflexivity|discriminate].
      * right. exists h, translated. auto.
    + intros [= <- <-]. cbn -[lit translate_request chat_calls].
      rewrite !chat_calls_app, !length_app. split; [reflexivity|]. split; [cbn; lia|].
      left. split; [reflexivity|discriminate].
    + intros [= <- <-]. cbn -[lit translate_request chat_calls].
      rewrite !chat_calls_app, !length_app. split; [reflexivity|]. split; [cbn; lia|].
      left. split; [reflexivity|discriminate].
Qed.

Lemma find_none_not_in (rows : list TranslationCache) h :
  List.find (fun row => bool_decide (content_hash row = h)) rows = None ->
  h ∉ content_hash <$> rows.
Proof.
  induction rows as [|row rows IH]; cbn; [intros _; apply not_elem_of_nil|].
  destruct (bool_decide (content_hash row = h)) eqn:E; [discriminate|].
  intros H Hin. apply elem_of_cons in Hin as [->|Hin].
  - apply bool_decide_eq_false in E. congruence.
  - exact (IH H Hin).
Qed.

Lemma translate_content_appends env content target_lang source_lang st r st' :
  translate_content env content target_lang source_lang st = (r, st') ->
  exists rows, cache st' = cache st ++ rows /\ (length rows <= 1)%nat.
Proof.
  intros H. apply translate_content_outcome in H as (_ & _ & Hcases).
  destruct Hcases as [[-> _]|(h & text & _ & _ & _ & ->)].
  - exists []. rewrite app_nil_r. split; [reflexivity|cbn; lia].
  - eexists. split; [reflexivity|cbn; lia].
Qed.

(** X17: the key is unique: if no two rows of the table share a [content_hash],
    no run of [translate_content] makes two rows share one. *)
Theorem translate_content_keeps_keys_unique
        env content target_lang source_lang st r st' :
  NoDup (content_hash <$> cache st) ->
  translate_content env content target_lang source_lang st = (r, st') ->
  NoDup (content_hash <$> cache st').
Proof.
  intros Hnd H. apply translate_content_outcome in H as (_ & _ & [[-> _]|Hnew]);
    [exact Hnd|].
  destruct Hnew as (h & text & _ & _ & Hfind & ->).
  rewrite fmap_app. apply NoDup_app. split; [exact Hnd|]. split.
  - intros x Hx Hin. cbn in Hin. apply list_elem_of_singleton in Hin as ->.
    exact (find_none_not_in _ _ Hfind Hx).
  - cbn. apply NoDup_singleton.
Qed.

Lemma translate_content_keeps_keys_unique_witness :
  NoDup (content_hash
           <$> cache (translate_content Stub.env_ok (lit "Robots move.") (lit "ur")
                                        (lit "en") Stub.st0).2).
Proof.
  apply (translate_content_keeps_keys_unique Stub.env_ok (lit "Robots move.") (lit "ur")
           (lit "en") Stub.st0 (Return (lit "ok"))).
  - constructor.
  - vm_compute. reflexivity.
Defined.

(** X18: a translation that fails is not cached: when [translate_content]
    raises, the table is exactly as before.  In any case rows are only
    appended (at most one), the vector store is not touched and at most one
    translation request is issued. *)
Theorem translate_content_failure_not_cached
        env content target_lang source_lang st r st' :
  translate_content env content target_lang source_lang st = (r, st') ->
  (forall e, r = Raise e -> cache st' = cache st)
  /\ (exists rows, cache st' = cache st ++ rows /\ (length rows <= 1)%nat)
  /\ points st' = points st
  /\ (length (chat_calls (calls st')) <= length (chat_calls (calls st)) + 1)%nat.
Proof.
  intros H. apply translate_content_outcome in H as (Hp & Hc & Hcases).
  split; [|split; [|auto]].
  - intros e ->. destruct Hcases as [[H _]|(h & text & _ & Hr & _)];
      [exact H|discriminate].
  - destruct Hcases as [[-> _]|(h & text & _ & _ & _ & ->)].
    + exists []. rewrite app_nil_r. split; [reflexivity|cbn; lia].
    + eexists. split; [reflexivity|cbn; lia].
Qed.

Lemma translate_content_failure_not_cached_witness :
  let run := translate_content Stub.env_provider_down (lit "Robots move.") (lit "ur")
                               (lit "en") Stub.st0 in
  run.1 = Raise Stub.provider_down /\ cache run.2 = cache Stub.st0.
Proof.
  intros run. split; [reflexivity|].
  exact (proj1 (translate_content_failure_not_cached Stub.env_provider_down
                  (lit "Robots move.") (lit "ur") (lit "en") Stub.st0
                  (Raise Stub.provider_down) run.2 eq_refl)
               Stub.provider_down eq_refl).
Defined.

End TranslationInvariants.

Section TranslationBatch.
Import TranslationService.

Lemma find_app_hit {A} (f : A -> bool) (l l' : list A) (x : A) :
  List.find f l = Some x -> List.find f (l ++ l') = Some x.
Proof.
  induction l as [|y l IH]; cbn; [discriminate|].
  destruct (f y); [auto|exact IH].
Qed.

(** What is cached stays cached, with the same text, through any call. *)
Lemma cached_persists env content' target_lang' source_lang st r st'
      content target_lang text :
  translate_content env content' target_lang' source_lang st = (r, st') ->
  cached (cache st) content target_lang text ->
  cached (cache st') content target_lang text.
Proof.
  intros H (h & row & Hh & Hfind & Htext).
  apply translate_content_appends in H as (rows & -> & _).
  exists h, row. split; [exact Hh|]. split; [|exact Htext].
  apply find_app_hit, Hfind.
Qed.

(** A lookup that finds the key answers from the table. *)
Lemma translate_content_hit env content target_lang source_lang st text :
  cached (cache st) content target_lang text ->
  exists h,
    translate_content env content target_lang source_lang st
    = (Return text, record_call (DbQuery h) st).
Proof.
  intros (h & row & Hh & Hfind & Htext). exists h.
  unfold translate_content, bind, lift, query_first. rewrite Hh.
  cbn -[lit]. rewrite Hfind. unfold ret. rewrite Htext. reflexivity.
Qed.

Lemma translate_batch_loop_outcome env target_lang contents :
  forall translations st r st1,
    translate_batch_loop env contents target_lang translations st = (r, st1) ->
    (forall content text,
        cached (cache st) content target_lang text ->
        cached (cache st1) content target_lang text)
    /\ match r with
       | Return result =>
           exists new,
             result = translations ++ new
             /\ Forall2 (fun content text => cached (cache st1) content target_lang text)
                        contents new
       | Raise e =>
           exists done failed rest texts st_d,
             contents = done ++ failed :: rest
             /\ translate_batch_loop env done target_lang translations st
                = (Return (translations ++ texts), st_d)
             /\ translate_content env failed target_lang (lit "en") st_d = (Raise e, st1)
             /\ Forall2 (fun content text => cached (cache st1) content target_lang text)
                        done texts
       end.
Proof.
  induction contents as [|content rest IH]; intros translations st r st1.
  - cbn. unfold ret. intros [= <- <-]. split; [auto|].
    exists []. rewrite app_nil_r. split; [reflexivity|constructor].
  - cbn [translate_batch_loop]. unfold bind at 1.
    destruct (translate_content env content target_lang (lit "en") st)
      as [[translated|e] st0] eqn:Hstep.
    + intros Hrest.
      pose proof (translate_content_stores _ _ _ _ _ _ _ Hstep) as Hnow.
      apply IH in Hrest as (Hkeep & Hr).
      split.
      { intros c text Hc. apply Hkeep. eapply cached_persists; eauto. }
      destruct r as [result|e].
      * destruct Hr as (new & -> & Hall). exists (translated :: new).
        split; [rewrite <- app_assoc; reflexivity|].
        constructor; [apply Hkeep; exact Hnow|exact Hall].
      * destruct Hr as (done & failed & rest' & texts & st_d & -> & Hdone & Hfail & Hall).
        exists (content :: done), failed, rest', (translated :: texts), st_d.
        split; [reflexivity|]. split.
        { cbn [translate_batch_loop]. unfold bind at 1. rewrite Hstep, Hdone.
          rewrite <- app_assoc. reflexivity. }
        split; [exact Hfail|].
        constructor; [apply Hkeep; exact Hnow|exact Hall].
    + intros [= <- <-]. split.
      { intros c text Hc. eapply cached_persists; eauto. }
      exists [], content, rest, [], st. split; [reflexivity|]. split.
      { cbn. unfold ret. rewrite app_nil_r. reflexivity. }
      split; [exact Hstep|constructor].
Qed.

(** X19: after a batch has been translated, each text returned is the one the
    cache holds for its content, in the order of the contents; so as many
    texts are returned as contents were given. *)
Theorem translate_batch_returns_cached_texts env contents target_lang st result st1 :
  translate_batch env contents target_lang st = (Return result, st1) ->
  Forall2 (fun content text => cached (cache st1) content target_lang text)
          contents result.
Proof.
  intros H. apply translate_batch_loop_outcome in H as (_ & new & -> & Hall).
  exact Hall.
Qed.

Lemma translate_batch_returns_cached_texts_witness :
  let run := translate_batch Stub.env_ok [lit "Robots move."; lit "Actuators."]
                             (lit "ur") Stub.st0 in
  Forall2 (fun content text => cached (cache run.2) content (lit "ur") text)
          [lit "Robots move."; lit "Actuators."] [lit "ok"; lit "ok"].
Proof.
  intros run.
  assert (H : run = (Return [lit "ok"; lit "ok"], run.2)) by (vm_compute; reflexivity).
  exact (translate_batch_returns_cached_texts Stub.env_ok
           [lit "Robots move."; lit "Actuators."] (lit "ur") Stub.st0 _ run.2 H).
Defined.

(** X20: a batch that fails has translated the contents before the failing
    one - that prefix alone is a batch that succeeds, and its texts are
    cached - and raises what [translate_content] raised on the failing
    content; the contents after it are not attempted. *)
Theorem translate_batch_failure_keeps_progress env contents target_lang st e st1 :
  translate_batch env contents target_lang st = (Raise e, st1) ->
  exists done failed rest texts st_d,
    contents = done ++ failed :: rest
    /\ translate_batch env done target_lang st = (Return texts, st_d)
    /\ translate_content env failed target_lang (lit "en") st_d = (Raise e, st1)
    /\ Forall2 (fun content text => cached (cache st1) content target_lang text)
               done texts.
Proof.
  intros H. apply translate_batch_loop_outcome in H as (_ & H). exact H.
Qed.

Lemma translate_batch_failure_keeps_progress_witness :
  let run := translate_batch Stub.env_chat_fails_later
                             [lit "Robots move."; lit "Actuators."] (lit "ur") Stub.st0 in
  run.1 = Raise Stub.provider_down
  /\ exists done failed rest texts st_d,
      [lit "Robots move."; lit "Actuators."] = done ++ failed :: rest
      /\ translate_batch Stub.env_chat_fails_later done (lit "ur") Stub.st0
         = (Return texts, st_d)
      /\ translate_content Stub.env_chat_fails_later failed (lit "ur") (lit "en") st_d
         = (Raise Stub.provider_down, run.2)
      /\ Forall2 (fun content text => cached (cache run.2) content (lit "ur") text)
                 done texts.
Proof.
  intros run.
  assert (H : run = (Raise Stub.provider_down, run.2)) by (vm_compute; reflexivity).
  split; [rewrite H; reflexivity|].
  exact (translate_batch_failure_keeps_progress Stub.env_chat_fails_later
           [lit "Robots move."; lit "Actuators."] (lit "ur") Stub.st0 _ run.2 H).
Defined.

Lemma translate_batch_loop_all_hits env target_lang rows contents result :
  Forall2 (fun content text => cached rows content target_lang text) contents result ->
  forall st0 translations,
    cache st0 = rows ->
    exists st2,
      translate_batch_loop env contents target_lang translations st0
      = (Return (translations ++ result), st2)
      /\ cache st2 = rows
      /\ chat_calls (calls st2) = chat_calls (calls st0).
Proof.
  induction 1 as [|content text contents result Hhit Hall IH];
    intros st0 translations Hc.
  - cbn. unfold ret. exists st0. rewrite app_nil_r. auto.
  - cbn [translate_batch_loop]. unfold bind at 1.
    destruct (translate_content_hit env content target_lang (lit "en") st0 text)
      as [h ->].
    { rewrite Hc. exact Hhit. }
    destruct (IH (record_call (DbQuery h) st0) (translations ++ [text]) Hc)
      as (st2 & Hrun & H2 & H3).
    exists st2. rewrite Hrun, <- app_assoc. split; [reflexivity|]. split; [exact H2|].
    rewrite H3. cbn. rewrite chat_calls_app, app_nil_r. reflexivity.
Qed.

(** X21: translating the same batch again: every content is served from the
    cache.  The same texts are returned, the table is unchanged and no
    translation request is issued, whatever the provider would answer. *)
Theorem translate_batch_second_run_cached env1 env2 contents target_lang st result st1 :
  translate_batch env1 contents target_lang st = (Return result, st1) ->
  exists st2,
    translate_batch env2 contents target_lang st1 = (Return result, st2)
    /\ cache st2 = cache st1
    /\ chat_calls (calls st2) = chat_calls (calls st1).
Proof.
  intros H. apply translate_batch_loop_outcome in H as (_ & new & -> & Hall).
  destruct (translate_batch_loop_all_hits env2 target_lang (cache st1) contents new
              Hall st1 [] eq_refl) as (st2 & Hrun & H2 & H3).
  exists st2. auto.
Qed.

Lemma translate_batch_second_run_cached_witness :
  let run1 := translate_batch Stub.env_ok [lit "Robots move."; lit "Actuators."]
                              (lit "ur") Stub.st0 in
  exists st2,
    translate_batch Stub.env_provider_down [lit "Robots move."; lit "Actuators."]
                    (lit "ur") run1.2
    = (Return [lit "ok"; lit "ok"], st2)
    /\ cache st2 = cache run1.2
    /\ chat_calls (calls st2) = chat_calls (calls run1.2).
Proof.
  intros run1.
  assert (H : run1 = (Return [lit "ok"; lit "ok"], run1.2)) by (vm_compute; reflexivity).
  exact (translate_batch_second_run_cached Stub.env_ok Stub.env_provider_down
           [lit "Robots move."; lit "Actuators."] (lit "ur") Stub.st0 _ run1.2 H).
Defined.

End TranslationBatch.

(* ===================================================================== *)
(** ** Learning paths *)
(* ===================================================================== *)

Section LearningPath.
Import PersonalizationService.

Lemma dict_set_lookup k v items : lookup_key k (dict_set k v items) = Some v.
Proof.
  induction items as [|[k' v'] items IH]; cbn.
  - rewrite bool_decide_eq_true_2 by reflexivity. reflexivity.
  - destruct (bool_decide (k' = k)) eqn:E; cbn; rewrite E; [reflexivity|exact IH].
Qed.

Lemma dict_set_lookup_other k k' v items :
  k' <> k -> lookup_key k' (dict_set k v items) = lookup_key k' items.
Proof.
  intros Hne. induction items as [|[k0 v0] items IH]; cbn.
  - rewrite bool_decide_eq_false_2 by congruence. reflexivity.
  - destruct (bool_decide (k0 = k)) eqn:E; cbn.
    + apply bool_decide_eq_true in E. subst k0.
      rewrite !bool_decide_eq_false_2 by congruence. reflexivity.
    + destruct (bool_decide (k0 = k')); [reflexivity|exact IH].
Qed.

Lemma dict_set_keys k v items :
  NoDup items.*1 -> NoDup (dict_set k v items).*1
  /\ (forall x, x ∈ (dict_set k v items).*1 <-> x = k \/ x ∈ items.*1).
Proof.
  induction items as [|[k' v'] items IH]; cbn.
  - intros _. split; [apply NoDup_singleton|].
    intros x. rewrite list_elem_of_singleton, elem_of_nil. tauto.
  - intros Hnd. apply NoDup_cons in Hnd as [Hnotin Hnd].
    destruct (IH Hnd) as [IH1 IH2].
    destruct (bool_decide (k' = k)) eqn:E; cbn.
    + apply bool_decide_eq_true in E. subst k'. split.
      * apply NoDup_cons. auto.
      * intros x. rewrite !elem_of_cons. tauto.
    + apply bool_decide_eq_false in E. split.
      * apply NoDup_cons. split; [|exact IH1].
        rewrite IH2. intros [?|?]; congruence.
      * intros x. rewrite !elem_of_cons, IH2. tauto.
Qed.

(** The default map rates each given chapter, and nothing else, once. *)
Lemma difficulty_map_spec chapters :
  NoDup (difficulty_map chapters).*1
  /\ (forall ch, ch ∈ (difficulty_map chapters).*1 <-> ch ∈ chapters)
  /\ (forall ch, ch ∈ chapters ->
                 lookup_key ch (difficulty_map chapters) = Some (PStr (lit "medium"))).
Proof.
  unfold difficulty_map.
  assert (Hgen : forall items,
             NoDup items.*1 ->
             (forall k, k ∈ items.*1 -> lookup_key k items = Some (PStr (lit "medium"))) ->
             let d := fold_left (fun items ch => dict_set ch (PStr (lit "medium")) items)
                                chapters items in
             NoDup d.*1
             /\ (forall ch, ch ∈ d.*1 <-> ch ∈ items.*1 \/ ch ∈ chapters)
             /\ (forall ch, ch ∈ d.*1 -> lookup_key ch d = Some (PStr (lit "medium")))).
  { induction chapters as [|c chapters IH]; intros items Hnd Hmed; cbn.
    - split; [exact Hnd|]. split; [|exact Hmed]. intros ch. rewrite elem_of_nil. tauto.
    - destruct (dict_set_keys c (PStr (lit "medium")) items Hnd) as [H1 H2].
      destruct (IH (dict_set c (PStr (lit "medium")) items) H1) as (IH1 & IH2 & IH3).
      { intros k Hk. destruct (decide (k = c)) as [->|Hne];
          [apply dict_set_lookup|].
        rewrite dict_set_lookup_other by exact Hne. apply Hmed.
        apply H2 in Hk as [?|?]; [congruence|assumption]. }
      split; [exact IH1|]. split; [|exact IH3].
      intros ch. rewrite IH2, H2, elem_of_cons. tauto. }
  destruct (Hgen [] ltac:(constructor) ltac:(intros k Hk; inversion Hk)) as (H1 & H2 & H3).
  split; [exact H1|]. split.
  - intros ch. rewrite H2. cbn. rewrite elem_of_nil. tauto.
  - intros ch Hin. apply H3, H2. auto.
Qed.

(** X22: [generate_learning_path] never raises.  When the provider call fails
    or its reply cannot be decoded, the default path is returned: the
    chapters in the order given, each rated "medium" exactly once. *)
Theorem generate_learning_path_degrades_to_default env user_background chapters st :
  (exists v st',
      generate_learning_path env user_background chapters st = (Return v, st'))
  /\ (let software_bg :=
        default (lit "beginner") (user_background !! lit "software_background") in
      let hardware_bg :=
        default (lit "none") (user_background !! lit "hardware_background") in
      undecodable env
        (chat_create env (calls st)
           (learning_path_request software_bg hardware_bg chapters)) ->
      (generate_learning_path env user_background chapters st).1
      = Return (default_learning_path chapters))
  /\ lookup_key (lit "recommended_order")
       match default_learning_path chapters with PDict items => items | _ => [] end
     = Some (PList (PStr <$> chapters))
  /\ NoDup (difficulty_map chapters).*1
  /\ (forall ch, ch ∈ chapters ->
                 lookup_key ch (difficulty_map chapters) = Some (PStr (lit "medium"))).
Proof.
  destruct (difficulty_map_spec chapters) as (Hnd & _ & Hmed).
  split; [|split; [|split; [reflexivity|split; assumption]]].
  - unfold generate_learning_path, try_except, bind, logger_error, ret. cbv zeta.
    destruct (chat_create env _ _) as [[s|]|e]; cbn -[lit default_learning_path]; eauto.
    unfold loads, raise, ret.
    destruct (json_loads env s) as [v|]; cbn -[lit default_learning_path]; eauto.
  - cbv zeta. intros H.
    unfold generate_learning_path, try_except, bind, logger_error, ret. cbv zeta.
    revert H. generalize (chat_create env (calls st)
      (learning_path_request
         (default (lit "beginner") (user_background !! lit "software_background"))
         (default (lit "none") (user_background !! lit "hardware_background"))
         chapters)).
    intros reply H. destruct H as [e| |s Hs]; cbn -[lit default_learning_path];
      try reflexivity.
    unfold loads, raise, ret. rewrite Hs. reflexivity.
Qed.

Lemma generate_learning_path_degrades_to_default_witness :
  (generate_learning_path Stub.env_provider_down ∅ [lit "intro"; lit "actuators"]
                          Stub.st0).1
  = Return (default_learning_path [lit "intro"; lit "actuators"]).
Proof.
  apply (proj1 (proj2 (generate_learning_path_degrades_to_default
                         Stub.env_provider_down ∅ [lit "intro"; lit "actuators"]
                         Stub.st0))).
  apply call_failed.
Defined.

End LearningPath.

(* ===================================================================== *)
(** ** The batch script: what ends up in the collection *)
(* ===================================================================== *)

Section ScriptUpload.
Import EmbedScript.

Lemma create_collection_returns env st st0 :
  create_collection env st = (Return tt, st0) ->
  collection st0 = Some ∅ /\ embedded st0 = embedded st /\ drawn st0 = drawn st.
Proof.
  unfold create_collection.
  destruct (delete_collection env); destruct (create_collection_fault env);
    cbn; try discriminate.
  - destruct (collection st); [discriminate|]. intros [= <-]. auto.
  - intros [= <-]. auto.
Qed.

Lemma dom_upsert_points (pts : list Point) : forall (m : gmap str Point),
  dom (upsert_points pts m) = dom m ∪ list_to_set (id <$> pts).
Proof.
  unfold upsert_points.
  induction pts as [|p pts IH]; intros m; cbn [fold_left fmap list_fmap list_to_set].
  - rewrite union_empty_r_L. reflexivity.
  - rewrite IH, dom_insert_L. rewrite (union_comm_L {[id p]} (dom m)).
    rewrite union_assoc_L. reflexivity.
Qed.

(** The chunks before the last one pass without an upload as long as fewer
    than 100 points are pending. *)
Lemma upload_front_no_flush env n front : forall i pending st tail,
  (i + length front < n)%nat ->
  (length pending + length front < 100)%nat ->
  exists pending' st',
    upload_from env n i (front ++ tail) pending st
    = upload_from env n (i + length front) tail pending' st'
    /\ collection st' = collection st
    /\ embedded st' = (embedded st + length front)%nat.
Proof.
  induction front as [|chunk_obj front IH]; intros i pending st tail Hi Hp.
  - exists pending, st. cbn. rewrite !Nat.add_0_r. auto.
  - cbn [app upload_from length] in *. unfold upload_chunk.
    destruct (get_embedding env (embedded st) (chunk_text chunk_obj)) as [v|e].
    + rewrite length_app. cbn [length].
      destruct (100 <=? length pending + 1)%nat eqn:E1;
        [apply Nat.leb_le in E1; lia|].
      destruct (Z.of_nat i =? Z.of_nat n - 1) eqn:E2; [apply Z.eqb_eq in E2; lia|].
      cbn [orb].
      match goal with |- context [upload_from env n (S i) _ ?p ?s] =>
        destruct (IH (S i) p s tail) as (pending' & st' & Heq & Hc & He)
      end.
      { lia. } { rewrite length_app. cbn. lia. }
      exists pending', st'. rewrite Heq.
      replace (S i + length front)%nat with (i + S (length front))%nat by lia.
      split; [reflexivity|]. split; [exact Hc|]. rewrite He. cbn. lia.
    + match goal with |- context [upload_from env n (S i) _ ?p ?s] =>
        destruct (IH (S i) p s tail) as (pending' & st' & Heq & Hc & He)
      end.
      { lia. } { lia. }
      exists pending', st'. rewrite Heq.
      replace (S i + length front)%nat with (i + S (length front))%nat by lia.
      split; [reflexivity|]. split; [exact Hc|]. rewrite He. cbn. lia.
Qed.

(** X23: with at most 100 chunks the only upload is the one after the last
    chunk; if the embedding of that last chunk fails, the [except] clause
    skips it: the run ends normally and the collection is empty, although
    every other chunk may have been embedded. *)
Theorem embed_documents_last_failure_uploads_nothing
        env front last st st0 e :
  (length (front ++ [last]) <= 100)%nat ->
  create_collection env st = (Return tt, st0) ->
  get_embedding env (embedded st + length front) (chunk_text last) = Raise e ->
  exists st',
    embed_documents env (front ++ [last]) st = (Return tt, st')
    /\ collection st' = Some ∅.
Proof.
  intros Hlen Hcreate Hfail. unfold embed_documents. rewrite Hcreate.
  destruct (create_collection_returns env st st0 Hcreate) as (Hc & He & _).
  eexists. split; [reflexivity|].
  rewrite length_app in *. cbn [length] in *.
  destruct (upload_front_no_flush env (length front + 1) front 0 [] st0 [last])
    as (pending' & st' & Heq & Hc' & He'); [lia|cbn; lia|].
  rewrite Heq. cbn [upload_from Nat.add]. unfold upload_chunk.
  rewrite He', He, Hfail. cbn. rewrite Hc', Hc. reflexivity.
Qed.

Lemma embed_documents_last_failure_uploads_nothing_witness :
  exists st',
    embed_documents Stub.script_env_last_fails (Stub.one_chunk ++ [Stub.second_chunk])
                    Stub.script_st0
    = (Return tt, st')
    /\ collection st' = Some ∅.
Proof.
  apply (embed_documents_last_failure_uploads_nothing Stub.script_env_last_fails
           Stub.one_chunk Stub.second_chunk Stub.script_st0
           (create_collection Stub.script_env_last_fails Stub.script_st0).2
           Stub.provider_down).
  - cbn. lia.
  - reflexivity.
  - reflexivity.
Defined.

Lemma drawn_ids_snoc env a k : drawn_ids env a (S k) = drawn_ids env a k ++ [uuid4 env (a + k)].
Proof. unfold drawn_ids. rewrite seq_S, fmap_app. reflexivity. Qed.

Lemma drawn_ids_app env a j k :
  drawn_ids env a (j + k) = drawn_ids env a j ++ drawn_ids env (a + j) k.
Proof. unfold drawn_ids. rewrite seq_app, fmap_app. reflexivity. Qed.

(** When no collaborator fails: the points uploaded so far are the first
    [f] identifiers drawn, the pending ones the next. *)
Lemma upload_from_all_succeed env n d0 :
  (forall k text, exists v, get_embedding env k text = Return v) ->
  (forall k pts, upsert env k pts = None) ->
  forall chunks i pending st m f,
    collection st = Some m ->
    (i + length chunks = n)%nat ->
    drawn st = (d0 + f + length pending)%nat ->
    id <$> pending = drawn_ids env (d0 + f) (length pending) ->
    dom m = list_to_set (drawn_ids env d0 f) ->
    chunks <> [] ->
    exists m',
      collection (upload_from env n i chunks pending st) = Some m'
      /\ dom m' = list_to_set (drawn_ids env d0 (f + length pending + length chunks)).
Proof.
  intros Hemb Hups.
  induction chunks as [|chunk_obj chunks IH]; intros i pending st m f Hm Hn Hd Hids Hdom Hne;
    [congruence|].
  cbn [upload_from length] in *. unfold upload_chunk.
  destruct (Hemb (embedded st) (chunk_text chunk_obj)) as [v ->].
  cbn [drawn collection embedded upserts].
  match goal with |- context [pending ++ [?p]] => set (point := p) end.
  assert (Hids' : id <$> (pending ++ [point])
                  = drawn_ids env (d0 + f) (length (pending ++ [point]))).
  { rewrite fmap_app, length_app, Hids. cbn [length fmap list_fmap id point].
    rewrite Nat.add_1_r, drawn_ids_snoc, Hd. reflexivity. }
  destruct ((100 <=? length (pending ++ [point]))%nat || (Z.of_nat i =? Z.of_nat n - 1))
    eqn:Hflush.
  - rewrite Hups, Hm.
    set (m1 := upsert_points (pending ++ [point]) m).
    assert (Hdom1 : dom m1 = list_to_set (drawn_ids env d0 (f + length (pending ++ [point])))).
    { unfold m1. rewrite dom_upsert_points, Hdom, Hids', drawn_ids_app.
      rewrite list_to_set_app_L. reflexivity. }
    destruct chunks as [|next chunks].
    + cbn [upload_from collection length]. exists m1. split; [reflexivity|].
      rewrite Hdom1, length_app. cbn [length]. f_equal. f_equal. lia.
    + match goal with |- context [upload_from env n (S i) _ [] ?s] =>
        destruct (IH (S i) [] s m1 (f + length (pending ++ [point]))%nat)
          as (m' & Hc & Hd')
      end; cbn [collection drawn length]; try reflexivity; try discriminate.
      * cbn [length] in Hn. lia.
      * rewrite length_app in *. cbn [length]. lia.
      * rewrite Hdom1. reflexivity.
      * exists m'. split; [exact Hc|]. rewrite Hd', length_app. cbn [length].
        f_equal. f_equal. lia.
  - apply orb_false_iff in Hflush as [_ Hlast]. apply Z.eqb_neq in Hlast.
    destruct chunks as [|next chunks]; [cbn [length] in Hn; lia|].
    match goal with |- context [upload_from env n (S i) _ _ ?s] =>
      destruct (IH (S i) (pending ++ [point]) s m f) as (m' & Hc & Hd')
    end; cbn [collection drawn length]; try assumption; try discriminate.
    + cbn [length] in Hn. lia.
    + rewrite length_app. cbn [length]. lia.
    + exists m'. split; [exact Hc|]. rewrite Hd', length_app. cbn [length].
      f_equal. f_equal. lia.
Qed.

(** X24: when the collection can be recreated, no embedding or upload fails and
    the identifiers drawn are distinct, the script leaves exactly one point
    per chunk in the collection, whatever the collection held before. *)
Theorem embed_documents_all_succeed env all_chunks st :
  (exists st0, create_collection env st = (Return tt, st0)) ->
  (forall k text, exists v, get_embedding env k text = Return v) ->
  (forall k pts, upsert env k pts = None) ->
  (forall a b, uuid4 env a = uuid4 env b -> a = b) ->
  exists st' m,
    embed_documents env all_chunks st = (Return tt, st')
    /\ collection st' = Some m
    /\ size m = length all_chunks
    /\ dom m = list_to_set (drawn_ids env (drawn st) (length all_chunks)).
Proof.
  intros [st0 Hcreate] Hemb Hups Hinj. unfold embed_documents. rewrite Hcreate.
  destruct (create_collection_returns env st st0 Hcreate) as (Hc & _ & Hd).
  destruct all_chunks as [|chunk_obj chunks].
  - exists st0, ∅. cbn. rewrite Hc. repeat split.
  - assert (Hd0 : drawn st0 = (drawn st + 0 + length (@nil Point))%nat)
      by (rewrite Hd; cbn; lia).
    assert (Hdom0 : dom (∅ : gmap str Point) = list_to_set (drawn_ids env (drawn st) 0))
      by (rewrite dom_empty_L; reflexivity).
    assert (Hne : chunk_obj :: chunks <> []) by discriminate.
    destruct (upload_from_all_succeed env (length (chunk_obj :: chunks)) (drawn st)
                Hemb Hups (chunk_obj :: chunks) 0 [] st0 ∅ 0 Hc eq_refl Hd0 eq_refl
                Hdom0 Hne)
      as (m' & Hcm & Hdom).
    eexists. exists m'. split; [reflexivity|]. split; [exact Hcm|].
    cbn [length Nat.add] in Hdom. split; [|exact Hdom].
    rewrite <- size_dom, Hdom, size_list_to_set.
    + unfold drawn_ids. rewrite length_fmap, length_seq. reflexivity.
    + unfold drawn_ids. apply NoDup_fmap_2; [exact Hinj|apply NoDup_seq].
Qed.

Lemma embed_documents_all_succeed_witness :
  exists st' m,
    embed_documents Stub.script_env_unary (Stub.one_chunk ++ [Stub.second_chunk])
                    Stub.script_st0
    = (Return tt, st')
    /\ collection st' = Some m
    /\ size m = length (Stub.one_chunk ++ [Stub.second_chunk])
    /\ dom m = list_to_set (drawn_ids Stub.script_env_unary (drawn Stub.script_st0)
                                      (length (Stub.one_chunk ++ [Stub.second_chunk]))).
Proof.
  apply (embed_documents_all_succeed Stub.script_env_unary
           (Stub.one_chunk ++ [Stub.second_chunk]) Stub.script_st0).
  - eexists. reflexivity.
  - intros k text. eexists. reflexivity.
  - intros k pts. reflexivity.
  - intros a b H. apply (f_equal (@length N)) in H. cbn in H.
    rewrite !repeat_length in H. exact H.
Defined.





End ScriptUpload.

(* ===================================================================== *)
(** ** Embedding every chapter: the counters *)
(* ===================================================================== *)

Section AllChapters.
Import EmbeddingService EmbedAllChapters.
Variable title : str -> str.

Example replace_examples :
  replace (lit "a\b\c.md") backslash (lit "/") = lit "a/b/c.md"
  /\ replace (lit "a/b/c.md") (lit ".md") (lit "") = lit "a/b/c"
  /\ replace (lit "a/b/c") (lit "/") (lit " - ") = lit "a - b - c"
  /\ replace (lit "aaa") (lit "aa") (lit "b") = lit "ba".
Proof. repeat split. Qed.

(** A successful run of [embed_content] has sent one point per chunk. *)
Lemma embed_content_returns_count env content metadata st n st' :
  embed_content env content metadata st = (Return n, st') ->
  exists new, calls st' = calls st ++ new /\ n = len (upserted new).
Proof.
  unfold embed_content, bind. intros H.
  destruct (embed_chunks env metadata (length (chunk_text_default content)) 0
              (chunk_text_default content) st) as [[[]|e] st1] eqn:Hloop;
    [|discriminate H].
  unfold ret in H. injection H as <- <-.
  apply embed_chunks_spec in Hloop as (new & Hcalls & _ & _ & Hidx).
  exists new. split; [exact Hcalls|].
  apply (f_equal (@length nat)) in Hidx. rewrite length_fmap, length_seq in Hidx.
  unfold len. rewrite Hidx. reflexivity.
Qed.

Lemma embed_file_counts env md_file summary st summary' st' :
  embed_file title env md_file summary st = (summary', st') ->
  successful summary' + failed summary'
  = successful summary + failed summary + (if attempted md_file then 1 else 0)
  /\ successful summary <= successful summary'
  /\ failed summary <= failed summary'
  /\ exists new,
      calls st' = calls st ++ new
      /\ (attempted md_file = false -> new = [])
      /\ total_chunks summary' - total_chunks summary <= len (upserted new)
      /\ (failed summary' = failed summary ->
          total_chunks summary' - total_chunks summary = len (upserted new)).
Proof.
  unfold embed_file, attempted.
  destruct (md_read md_file) as [content|].
  - destruct (len content <? 100); cbn [negb].
    + intros [= <- <-]. repeat split; try lia.
      exists []. rewrite app_nil_r. unfold len. cbn. repeat split; first [lia | reflexivity].
    + destruct (embed_content env content (chapter_metadata title md_file) st)
        as [[n|e] st1] eqn:Hrun; intros [= <- <-]; cbn; repeat split; try lia.
      * apply embed_content_returns_count in Hrun as (new & Hc & ->).
        exists new. repeat split; [exact Hc|discriminate|lia|lia].
      * assert (Hnew : exists new, calls st1 = calls st ++ new).
        { unfold embed_content, bind in Hrun.
          destruct (embed_chunks env _ _ 0 _ st) as [[[]|e'] st2] eqn:Hloop;
            [discriminate|]. injection Hrun as <- <-.
          apply embed_chunks_spec in Hloop as (new & Hc & _). eauto. }
        destruct Hnew as (new & Hc). exists new.
        pose proof (len_nonneg (upserted new)).
        repeat split; [exact Hc|discriminate|lia|lia].
  - intros [= <- <-]. cbn. repeat split; try lia.
    exists []. rewrite app_nil_r. unfold len. cbn.
    split; [reflexivity|]. split; [discriminate|]. split; lia.
Qed.

Lemma embed_files_counts env md_files : forall summary st summary' st',
  embed_files title env md_files summary st = (summary', st') ->
  successful summary' + failed summary'
  = successful summary + failed summary
    + Z.of_nat (length (List.filter attempted md_files))
  /\ successful summary <= successful summary'
  /\ failed summary <= failed summary'
  /\ exists new,
      calls st' = calls st ++ new
      /\ (List.filter attempted md_files = [] -> new = [])
      /\ total_chunks summary' - total_chunks summary <= len (upserted new)
      /\ (failed summary' = failed summary ->
          total_chunks summary' - total_chunks summary = len (upserted new)).
Proof.
  induction md_files as [|md_file rest IH]; intros summary st summary' st'.
  - cbn. intros [= <- <-]. repeat split; try lia.
    exists []. rewrite app_nil_r. unfold len. cbn. repeat split; first [lia | reflexivity].
  - cbn [embed_files List.filter].
    destruct (embed_file title env md_file summary st) as [summary1 st1] eqn:Hone.
    intros Hrest.
    apply embed_file_counts in Hone as (H1 & H2 & H3 & new1 & Hc1 & Hs1 & Ht1 & Hf1).
    apply IH in Hrest as (G1 & G2 & G3 & new2 & Hc2 & Hs2 & Ht2 & Hf2).
    split.
    { destruct (attempted md_file); cbn [length]; lia. }
    split; [lia|]. split; [lia|].
    exists (new1 ++ new2). split; [rewrite Hc2, Hc1, app_assoc; reflexivity|].
    unfold upserted, len in *. rewrite flat_map_app, length_app.
    split; [|split].
    + destruct (attempted md_file); [discriminate|].
      intros Hnone. rewrite Hs1, Hs2 by auto. reflexivity.
    + lia.
    + intros Hf. assert (failed summary1 = failed summary) by lia.
      assert (failed summary' = failed summary1) by lia.
      specialize (Hf1 ltac:(assumption)). specialize (Hf2 ltac:(assumption)). lia.
Qed.

(** X26: the counters of a run over the markdown files: every file that cannot
    be read or has at least 100 characters is counted once, as successful
    or as failed, and no other file is counted or causes a call; the total
    of chunks reported never exceeds the number of points sent to the
    store, and equals it when no file failed. *)
Theorem embed_all_chapters_counts env md_files st summary st' :
  embed_all_chapters title env md_files st = (summary, st') ->
  successful summary + failed summary
  = Z.of_nat (length (List.filter attempted md_files))
  /\ 0 <= successful summary /\ 0 <= failed summary
  /\ exists new,
      calls st' = calls st ++ new
      /\ (List.filter attempted md_files = [] -> new = [])
      /\ total_chunks summary <= len (upserted new)
      /\ (failed summary = 0 -> total_chunks summary = len (upserted new)).
Proof.
  unfold embed_all_chapters. intros H.
  apply embed_files_counts in H as (H1 & H2 & H3 & new & Hc & Hs & Ht & Hf).
  cbn in *. split; [lia|]. split; [lia|]. split; [lia|].
  exists new. repeat split; [exact Hc|exact Hs|lia|].
  intros H0. specialize (Hf H0). lia.
Qed.

End AllChapters.

Lemma embed_all_chapters_counts_witness :
  let md_files :=
    [ {| EmbedAllChapters.md_name := lit "intro.md";
         EmbedAllChapters.md_relative := lit "intro.md";
         EmbedAllChapters.md_read := Some (lit "# Introduction") |};
      {| EmbedAllChapters.md_name := lit "broken.md";
         EmbedAllChapters.md_relative := lit "part1/broken.md";
         EmbedAllChapters.md_read := None |};
      {| EmbedAllChapters.md_name := lit "sensors.md";
         EmbedAllChapters.md_relative := lit "part1/sensors.md";
         EmbedAllChapters.md_read := Some Stub.long_content |} ] in
  let run :=
    EmbedAllChapters.embed_all_chapters (fun s => s) Stub.env_ok md_files Stub.st0 in
  EmbedAllChapters.successful run.1 + EmbedAllChapters.failed run.1
  = Z.of_nat (length (List.filter EmbedAllChapters.attempted md_files))
  /\ 0 <= EmbedAllChapters.successful run.1 /\ 0 <= EmbedAllChapters.failed run.1
  /\ exists new,
      calls run.2 = calls Stub.st0 ++ new
      /\ (List.filter EmbedAllChapters.attempted md_files = [] -> new = [])
      /\ EmbedAllChapters.total_chunks run.1 <= len (upserted new)
      /\ (EmbedAllChapters.failed run.1 = 0 ->
          EmbedAllChapters.total_chunks run.1 = len (upserted new)).
Proof.
  intros md_files run.
  assert (Hrun : run = ({| EmbedAllChapters.total_chunks := 2;
                           EmbedAllChapters.successful := 1;
                           EmbedAllChapters.failed := 1 |}, run.2))
    by (vm_compute; reflexivity).
  assert (Hsummary : run.1 = {| EmbedAllChapters.total_chunks := 2;
                                EmbedAllChapters.successful := 1;
                                EmbedAllChapters.failed := 1 |})
    by (vm_compute; reflexivity).
  rewrite Hsummary.
  exact (embed_all_chapters_counts (fun s => s) Stub.env_ok md_files Stub.st0
           _ run.2 Hrun).
Defined.
